(** * Thallium pools: the pool handle and the custom-pool adapter

    A shallow embedding of [include/thallium/pool.hpp]: the [pool] handle
    class, the error macro [TL_POOL_ASSERT], and the adapter
    [pool::pool_def<P, U, Palloc, Ualloc>] whose static functions are
    installed in the native [ABT_pool_def] table.

    The Argobots runtime ([abt.h]) is an external library: its constants
    and entry points are taken as an interface ([AbtConstants],
    [Native]); the user-supplied types [P], [U] and the two allocators
    are type classes.  C++ objects live in explicit stores indexed by
    address, exceptions and undefined behaviour are outcomes of a small
    state monad. *)

From stdpp Require Import base option gmap list strings.
From Stdlib Require Import ZArith.

Open Scope Z_scope.

(** ** Native handles and constants *)

(** [ABT_pool], [ABT_unit], [ABT_thread], [ABT_task], [ABT_pool_config]
    are opaque pointers; status codes and the C enums are ints. *)
Abbreviation ABT_pool := Z (only parsing).
Abbreviation ABT_unit := Z (only parsing).
Abbreviation ABT_thread := Z (only parsing).
Abbreviation ABT_task := Z (only parsing).
Abbreviation ABT_pool_config := Z (only parsing).
Abbreviation status := Z (only parsing).
Abbreviation address := Z (only parsing).

Definition nullptr : Z := 0.

(** The constants of [abt.h] and the two helpers of
    [thallium/abt_errors.hpp] used by this header.  [ABT_FALSE] and
    [ABT_POOL_CONFIG_NULL] are macros of [abt.h] that occur inside
    checked calls; [ABT_FALSE_text] and [ABT_POOL_CONFIG_NULL_text] are
    the spellings of their expansions, as the preprocessor's [#] renders
    them. *)
Class AbtConstants := {
  ABT_SUCCESS : status;
  ABT_POOL_NULL : ABT_pool;
  ABT_POOL_CONFIG_NULL : ABT_pool_config;
  ABT_FALSE : Z;
  ABT_POOL_ACCESS_PRIV : Z;
  ABT_POOL_ACCESS_SPSC : Z;
  ABT_POOL_ACCESS_MPSC : Z;
  ABT_POOL_ACCESS_SPMC : Z;
  ABT_POOL_ACCESS_MPMC : Z;
  ABT_POOL_FIFO : Z;
  ABT_POOL_FIFO_WAIT : Z;
  ABT_UNIT_TYPE_THREAD : Z;
  ABT_UNIT_TYPE_TASK : Z;
  abt_error_get_name : status -> string;
  abt_error_get_description : status -> string;
  FILE__ : string;
  ABT_FALSE_text : string;
  ABT_POOL_CONFIG_NULL_text : string
}.

(** [enum class pool::access] and [enum class pool::kind], with the casts
    [(ABT_pool_access)a] and [(ABT_pool_kind)k]. *)
Inductive access := priv | spsc | mpsc | spmc | mpmc.
Inductive kind := fifo | fifo_wait.

Definition ABT_pool_access_of `{AbtConstants} (a : access) : Z :=
  match a with
  | priv => ABT_POOL_ACCESS_PRIV
  | spsc => ABT_POOL_ACCESS_SPSC
  | mpsc => ABT_POOL_ACCESS_MPSC
  | spmc => ABT_POOL_ACCESS_SPMC
  | mpmc => ABT_POOL_ACCESS_MPMC
  end.

Definition ABT_pool_kind_of `{AbtConstants} (k : kind) : Z :=
  match k with
  | fifo => ABT_POOL_FIFO
  | fifo_wait => ABT_POOL_FIFO_WAIT
  end.

(** Modelled from the spec: [thallium/unit_type.hpp] is not part of the
    sources at hand; a work unit is a tagged variant over thread and task,
    and the cast [(ABT_unit_type)] maps the tag to the native constant. *)
Inductive unit_type := ut_thread | ut_task.

Definition ABT_unit_type_of `{AbtConstants} (t : unit_type) : Z :=
  match t with
  | ut_thread => ABT_UNIT_TYPE_THREAD
  | ut_task => ABT_UNIT_TYPE_TASK
  end.

(** Modelled from the spec: [thallium/thread.hpp] and [thallium/task.hpp]
    are not part of the sources at hand; both classes hold a native-handle
    field ([m_thread], [m_task], as [revive_thread] and [revive_task] name
    them) which [native_handle()] returns. *)
Record thread := { m_thread : ABT_thread }.
Record task := { m_task : ABT_task }.

Definition thread_native_handle (t : thread) : ABT_thread := m_thread t.
Definition task_native_handle (t : task) : ABT_task := m_task t.

(** ** Exceptions and outcomes *)

(** Arguments forwarded by [pool_exception(Args&&...)] to the base
    [exception]: string pieces and integers. *)
Inductive exn_arg := Str (s : string) | Int (n : Z).

Inductive exn :=
  | pool_exception (args : list exn_arg)
  | bad_alloc.

(** A call returns, throws, or has undefined behaviour (a dereference of
    a pointer to no live object). *)
Inductive outcome (A : Type) :=
  | Returned (a : A)
  | Threw (e : exn)
  | Undefined.
Arguments Returned {A} a.
Arguments Threw {A} e.
Arguments Undefined {A}.

Definition M (W A : Type) : Type := W -> outcome A * W.

Definition ret {W A} (a : A) : M W A := fun w => (Returned a, w).

Definition bind {W A B} (c : M W A) (k : A -> M W B) : M W B :=
  fun w =>
    match c w with
    | (Returned a, w') => k a w'
    | (Threw e, w') => (Threw e, w')
    | (Undefined, w') => (Undefined, w')
    end.

Definition throw {W A} (e : exn) : M W A := fun w => (Threw e, w).
Definition undefined {W A} : M W A := fun w => (Undefined, w).
Definition gets {W A} (f : W -> A) : M W A := fun w => (Returned (f w), w).
Definition modify {W} (f : W -> W) : M W unit := fun w => (Returned tt, f w).
(** A call into the runtime: a total state transformer with a result. *)
Definition call {W A} (f : W -> A * W) : M W A :=
  fun w => let '(a, w') := f w in (Returned a, w').

#[export] Instance M_ret {W} : MRet (M W) := fun A => @ret W A.
#[export] Instance M_bind {W} : MBind (M W) := fun A B k c => @bind W A B c k.

(** [TL_POOL_EXCEPTION(__fun, __ret)] and [TL_POOL_ASSERT(__call)]: the
    call is evaluated once and its status [r] compared with
    [ABT_SUCCESS]; [fun_text] is the call's text as stringified by the
    preprocessor, [line] stands for [__LINE__] at the invocation (its
    first line when it spans several).  [TL_POOL_ASSERT] hands [__call]
    on to [TL_POOL_EXCEPTION], so the macros among the call's arguments
    are expanded before [#__fun] stringifies them. *)
Definition TL_POOL_EXCEPTION `{AbtConstants}
    (fun_text : string) (line : Z) (r : status) : exn :=
  pool_exception
    [Str fun_text; Str " returned "; Str (abt_error_get_name r); Str " (";
     Str (abt_error_get_description r); Str ") in "; Str FILE__; Str ":";
     Int line].

Definition TL_POOL_ASSERT `{AbtConstants} {W}
    (fun_text : string) (line : Z) (r : status) : M W unit :=
  if decide (r = ABT_SUCCESS) then ret tt
  else throw (TL_POOL_EXCEPTION fun_text line r).

(** ** Allocators and user types *)

(** The part of the allocator interface reached through
    [std::allocator_traits]: [allocate(a, n)] returns fresh storage or
    throws [std::bad_alloc] ([None]); [deallocate(a, p, n)] returns it. *)
Class Allocator (A : Type) := {
  allocate : nat -> A -> option (address * A);
  deallocate : address -> nat -> A -> A
}.

(** The unit type [U] of the documented model. *)
Class UnitModel (U : Type) := {
  U_from_thread : thread -> U;
  U_from_task : task -> U;
  U_get_type : U -> unit_type;
  U_get_thread : U -> thread;
  U_get_task : U -> task;
  U_is_in_pool : U -> bool
}.

(** The pool type [P] of the documented model.  Its methods receive
    [U*] pointers and may touch the units they point to, hence the unit
    store is threaded through [push], [pop] and [remove]. *)
Class PoolModel (P U : Type) := {
  P_access_type : access;
  P_default : P;
  P_get_size : P -> N;
  P_push : address -> P -> gmap Z U -> P * gmap Z U;
  P_pop : P -> gmap Z U -> address * P * gmap Z U;
  P_remove : address -> P -> gmap Z U -> P * gmap Z U
}.

(** ** The world: object stores, allocator state, runtime state *)

Inductive arena := pool_arena | unit_arena | default_heap.

(** Every storage operation the code performs is recorded, with the
    arena it went through. *)
Inductive mem_event :=
  | Allocate (a : arena) (p : address) (n : nat)
  | Construct (a : arena) (p : address)
  | Destroy (a : arena) (p : address)
  | Deallocate (a : arena) (p : address) (n : nat).

#[export] Instance arena_eq_dec : EqDecision arena.
Proof. solve_decision. Defined.
#[export] Instance mem_event_eq_dec : EqDecision mem_event.
Proof. solve_decision. Defined.

Record world (R P U F PA UA : Type) := World {
  runtime : R;                 (* state of the native runtime *)
  pool_allocator : PA;         (* static Palloc pool_allocator *)
  unit_allocator : UA;         (* static Ualloc unit_allocator *)
  pool_objs : gmap Z P;        (* live P objects by address *)
  unit_objs : gmap Z U;        (* live U objects by address *)
  fun_objs : gmap Z F;         (* live std::function objects by address *)
  mem_log : list mem_event     (* newest event last *)
}.
Arguments World {R P U F PA UA}.
Arguments runtime {R P U F PA UA}.
Arguments pool_allocator {R P U F PA UA}.
Arguments unit_allocator {R P U F PA UA}.
Arguments pool_objs {R P U F PA UA}.
Arguments unit_objs {R P U F PA UA}.
Arguments fun_objs {R P U F PA UA}.
Arguments mem_log {R P U F PA UA}.

(** The function pointer handed to the runtime as the body of a unit. *)
Inductive work_fn := forward_work_unit.

(** The native pool definition table [ABT_pool_def]. *)
Record ABT_pool_def (W : Type) := Build_ABT_pool_def {
  def_access : Z;
  def_u_get_type : ABT_unit -> M W Z;
  def_u_get_thread : ABT_unit -> M W ABT_thread;
  def_u_get_task : ABT_unit -> M W ABT_task;
  def_u_is_in_pool : ABT_unit -> M W Z;
  def_u_create_from_thread : ABT_thread -> M W ABT_unit;
  def_u_create_from_task : ABT_task -> M W ABT_unit;
  def_u_free : ABT_unit -> M W ABT_unit;
  def_p_init : ABT_pool -> ABT_pool_config -> M W status;
  def_p_get_size : ABT_pool -> M W N;
  def_p_push : ABT_pool -> ABT_unit -> M W unit;
  def_p_pop : ABT_pool -> M W ABT_unit;
  def_p_remove : ABT_pool -> ABT_unit -> M W status;
  def_p_free : ABT_pool -> M W status
}.
Arguments Build_ABT_pool_def {W}.
Arguments def_access {W}.
Arguments def_u_get_type {W}.
Arguments def_u_get_thread {W}.
Arguments def_u_get_task {W}.
Arguments def_u_is_in_pool {W}.
Arguments def_u_create_from_thread {W}.
Arguments def_u_create_from_task {W}.
Arguments def_u_free {W}.
Arguments def_p_init {W}.
Arguments def_p_get_size {W}.
Arguments def_p_push {W}.
Arguments def_p_pop {W}.
Arguments def_p_remove {W}.
Arguments def_p_free {W}.

(** The entry points of the runtime this header calls.  Each is a state
    transformer on the whole world (the runtime calls back into pool
    definitions); out-parameters are returned next to the status.  For
    [ABT_pool_free] and the revive calls the second component is the new
    content of the handle passed by address. *)
Class Native (W : Type) := {
  operator_new : W -> option address * W;
  operator_delete : address -> W -> unit * W;
  ABT_pool_get_data : ABT_pool -> W -> (status * address) * W;
  ABT_pool_set_data : ABT_pool -> address -> W -> status * W;
  ABT_pool_create : ABT_pool_def W -> ABT_pool_config -> W -> (status * ABT_pool) * W;
  ABT_pool_create_basic : Z -> Z -> Z -> W -> (status * ABT_pool) * W;
  ABT_pool_free : ABT_pool -> W -> (status * ABT_pool) * W;
  ABT_pool_pop : ABT_pool -> W -> (status * ABT_unit) * W;
  ABT_pool_push : ABT_pool -> ABT_unit -> W -> status * W;
  ABT_pool_remove : ABT_pool -> ABT_unit -> W -> status * W;
  ABT_thread_revive : ABT_pool -> work_fn -> address -> ABT_thread -> W -> (status * ABT_thread) * W;
  ABT_task_revive : ABT_pool -> work_fn -> address -> ABT_task -> W -> (status * ABT_task) * W
}.

(** Field updates of the world. *)
Section world_updates.
Context {R P U F PA UA : Type}.
Implicit Type w : world R P U F PA UA.

Definition set_runtime (r : R) w :=
  World r (pool_allocator w) (unit_allocator w) (pool_objs w) (unit_objs w)
        (fun_objs w) (mem_log w).
Definition set_pool_allocator (a : PA) w :=
  World (runtime w) a (unit_allocator w) (pool_objs w) (unit_objs w)
        (fun_objs w) (mem_log w).
Definition set_unit_allocator (a : UA) w :=
  World (runtime w) (pool_allocator w) a (pool_objs w) (unit_objs w)
        (fun_objs w) (mem_log w).
Definition set_pool_objs (m : gmap Z P) w :=
  World (runtime w) (pool_allocator w) (unit_allocator w) m (unit_objs w)
        (fun_objs w) (mem_log w).
Definition set_unit_objs (m : gmap Z U) w :=
  World (runtime w) (pool_allocator w) (unit_allocator w) (pool_objs w) m
        (fun_objs w) (mem_log w).
Definition set_fun_objs (m : gmap Z F) w :=
  World (runtime w) (pool_allocator w) (unit_allocator w) (pool_objs w)
        (unit_objs w) m (mem_log w).
Definition log_event (e : mem_event) w :=
  World (runtime w) (pool_allocator w) (unit_allocator w) (pool_objs w)
        (unit_objs w) (fun_objs w) (mem_log w ++ [e]).
End world_updates.

(** ** Storage primitives *)

Section storage.
Context {R P U F PA UA : Type}.
Context `{!Allocator PA, !Allocator UA}.
Local Abbreviation W := (world R P U F PA UA).
Context `{!Native W}.

(** [std::allocator_traits<Ualloc>::allocate(unit_allocator, n)] *)
Definition unit_allocate (n : nat) : M W address := fun w =>
  match allocate n (unit_allocator w) with
  | Some (p, a) =>
      (Returned p, log_event (Allocate unit_arena p n) (set_unit_allocator a w))
  | None => (Threw bad_alloc, w)
  end.

(** [std::allocator_traits<Ualloc>::construct(unit_allocator, p, v)]:
    an object is created in the storage at [p]. *)
Definition unit_construct (p : address) (v : U) : M W unit := fun w =>
  (Returned tt,
   log_event (Construct unit_arena p) (set_unit_objs (<[p := v]> (unit_objs w)) w)).

(** [std::allocator_traits<Ualloc>::destroy(unit_allocator, p)]: ends
    the life of the object at [p]; undefined when there is none. *)
Definition unit_destroy (p : address) : M W unit := fun w =>
  match unit_objs w !! p with
  | Some _ =>
      (Returned tt,
       log_event (Destroy unit_arena p) (set_unit_objs (delete p (unit_objs w)) w))
  | None => (Undefined, w)
  end.

(** [std::allocator_traits<Ualloc>::deallocate(unit_allocator, p, n)] *)
Definition unit_deallocate (p : address) (n : nat) : M W unit := fun w =>
  (Returned tt,
   log_event (Deallocate unit_arena p n)
     (set_unit_allocator (deallocate p n (unit_allocator w)) w)).

(** The same four operations through [pool_allocator]. *)
Definition pool_allocate (n : nat) : M W address := fun w =>
  match allocate n (pool_allocator w) with
  | Some (p, a) =>
      (Returned p, log_event (Allocate pool_arena p n) (set_pool_allocator a w))
  | None => (Threw bad_alloc, w)
  end.

Definition pool_construct (p : address) (v : P) : M W unit := fun w =>
  (Returned tt,
   log_event (Construct pool_arena p) (set_pool_objs (<[p := v]> (pool_objs w)) w)).

Definition pool_destroy_obj (p : address) : M W unit := fun w =>
  match pool_objs w !! p with
  | Some _ =>
      (Returned tt,
       log_event (Destroy pool_arena p) (set_pool_objs (delete p (pool_objs w)) w))
  | None => (Undefined, w)
  end.

Definition pool_deallocate (p : address) (n : nat) : M W unit := fun w =>
  (Returned tt,
   log_event (Deallocate pool_arena p n)
     (set_pool_allocator (deallocate p n (pool_allocator w)) w)).

(** [new std::function<void(void)>(f)] on the default heap. *)
Definition new_function (f : F) : M W address := fun w =>
  match operator_new w with
  | (Some p, w1) =>
      (Returned p,
       log_event (Construct default_heap p)
         (set_fun_objs (<[p := f]> (fun_objs w1))
            (log_event (Allocate default_heap p 1) w1)))
  | (None, w1) => (Threw bad_alloc, w1)
  end.

(** Dereferences of [U*] and [P*]. *)
Definition deref_unit (u : address) : M W U := fun w =>
  match unit_objs w !! u with
  | Some v => (Returned v, w)
  | None => (Undefined, w)
  end.

Definition deref_pool (p : address) : M W P := fun w =>
  match pool_objs w !! p with
  | Some v => (Returned v, w)
  | None => (Undefined, w)
  end.
End storage.

(** ** The adapter [pool::pool_def<P, U, Palloc, Ualloc>] *)

Section pool_def.
Context {R P U F PA UA : Type}.
Context `{!AbtConstants, !UnitModel U, !PoolModel P U}.
Context `{!Allocator PA, !Allocator UA}.
Local Abbreviation W := (world R P U F PA UA).
Context `{!Native W}.

Definition u_get_type (u : ABT_unit) : M W Z :=
  uu ← deref_unit u;
  mret (ABT_unit_type_of (U_get_type uu)).

Definition u_get_thread (u : ABT_unit) : M W ABT_thread :=
  uu ← deref_unit u;
  mret (thread_native_handle (U_get_thread uu)).

Definition u_get_task (u : ABT_unit) : M W ABT_task :=
  uu ← deref_unit u;
  mret (task_native_handle (U_get_task uu)).

Definition u_is_in_pool (u : ABT_unit) : M W Z :=
  uu ← deref_unit u;
  mret (Z.b2z (U_is_in_pool uu)).

Definition u_create_from_thread (t : ABT_thread) : M W ABT_unit :=
  uu ← unit_allocate 1;
  unit_construct uu (U_from_thread {| m_thread := t |});;
  mret uu.

Definition u_create_from_task (t : ABT_task) : M W ABT_unit :=
  uu ← unit_allocate 1;
  unit_construct uu (U_from_task {| m_task := t |});;
  mret uu.

(** [u_free(ABT_unit* u)]: takes the content of the slot [*u] and
    returns its content on exit. *)
Definition u_free (u : ABT_unit) : M W ABT_unit :=
  let uu := u in
  unit_destroy uu;;
  unit_deallocate uu 1;;
  mret nullptr.

Definition p_init (p : ABT_pool) (cfg : ABT_pool_config) : M W status :=
  impl ← pool_allocate 1;
  pool_construct impl P_default;;
  r ← call (ABT_pool_set_data p impl);
  mret r.

(** The world after a method of the [P] object at [data] ran: the
    object and the units it touched are written back. *)
Definition forwarded (data : address) (impl' : P) (units' : gmap Z U) (w : W) : W :=
  set_pool_objs (<[data := impl']> (pool_objs w)) (set_unit_objs units' w).

Definition p_get_size (p : ABT_pool) : M W N :=
  '(r, data) ← call (ABT_pool_get_data p);
  TL_POOL_ASSERT "ABT_pool_get_data(p, &data)" 132 r;;
  impl ← deref_pool data;
  mret (P_get_size impl).

Definition p_push (p : ABT_pool) (u : ABT_unit) : M W unit :=
  '(r, data) ← call (ABT_pool_get_data p);
  TL_POOL_ASSERT "ABT_pool_get_data(p, &data)" 139 r;;
  impl ← deref_pool data;
  units ← gets unit_objs;
  let '(impl', units') := P_push u impl units in
  modify (forwarded data impl' units').

Definition p_remove (p : ABT_pool) (u : ABT_unit) : M W status :=
  '(r, data) ← call (ABT_pool_get_data p);
  if decide (r ≠ ABT_SUCCESS) then mret r
  else
    impl ← deref_pool data;
    units ← gets unit_objs;
    let '(impl', units') := P_remove u impl units in
    modify (forwarded data impl' units');;
    mret ABT_SUCCESS.

Definition p_pop (p : ABT_pool) : M W ABT_unit :=
  '(r, data) ← call (ABT_pool_get_data p);
  TL_POOL_ASSERT "ABT_pool_get_data(p, &data)" 155 r;;
  impl ← deref_pool data;
  units ← gets unit_objs;
  let '(u, impl', units') := P_pop impl units in
  modify (forwarded data impl' units');;
  mret u.

Definition p_free (p : ABT_pool) : M W status :=
  '(r, data) ← call (ABT_pool_get_data p);
  if decide (r ≠ ABT_SUCCESS) then mret r
  else
    let impl := data in
    pool_destroy_obj impl;;
    pool_deallocate impl 1;;
    mret ABT_SUCCESS.
End pool_def.

(** ** The [pool] handle class *)

(** [class pool] has one data member, [ABT_pool m_pool]. *)
Record pool := { m_pool : ABT_pool }.

(** Modelled from the spec: [thallium/managed.hpp] is not part of the
    sources at hand; the ownership wrapper holds the object it manages
    and its destructor runs that object's [destroy()] (section 2, item 6,
    and the note on [create]: the destructor of a [managed<pool>] will try
    to destroy the pool). *)
Record managed (T : Type) := { m_managed : T }.
Arguments m_managed {T}.

Definition make_managed_pool (p : ABT_pool) : managed pool :=
  {| m_managed := {| m_pool := p |} |}.

Section pool_class.
Context {R P U F PA UA : Type}.
Context `{!AbtConstants, !UnitModel U, !PoolModel P U}.
Context `{!Allocator PA, !Allocator UA}.
Local Abbreviation W := (world R P U F PA UA).
Context `{!Native W}.

(** [pool::destroy()] *)
Definition destroy (self : pool) : M W pool :=
  if decide (m_pool self ≠ ABT_POOL_NULL) then
    '(_, h) ← call (ABT_pool_free (m_pool self));
    mret {| m_pool := h |}
  else mret self.

(** [explicit pool(ABT_pool p)] and [pool()] *)
Definition pool_of_handle (p : ABT_pool) : pool := {| m_pool := p |}.
Definition pool_default : pool := {| m_pool := ABT_POOL_NULL |}.

Definition native_handle (self : pool) : ABT_pool := m_pool self.
Definition is_null (self : pool) : bool := bool_decide (m_pool self = ABT_POOL_NULL).

(** The table filled in by [pool::create<P, U, Palloc, Ualloc>()]. *)
Definition pool_def_table : ABT_pool_def W :=
  let A := P_access_type in
  {| def_access := ABT_pool_access_of A;
     def_u_get_type := u_get_type;
     def_u_get_thread := u_get_thread;
     def_u_get_task := u_get_task;
     def_u_is_in_pool := u_is_in_pool;
     def_u_create_from_thread := u_create_from_thread;
     def_u_create_from_task := u_create_from_task;
     def_u_free := u_free;
     def_p_init := p_init;
     def_p_get_size := p_get_size;
     def_p_push := p_push;
     def_p_pop := p_pop;
     def_p_remove := p_remove;
     def_p_free := p_free |}.

(** [template <P, U, Palloc, Ualloc> static managed<pool> create()] *)
Definition create_custom : M W (managed pool) :=
  let def := pool_def_table in
  '(r, p) ← call (ABT_pool_create def ABT_POOL_CONFIG_NULL);
  TL_POOL_ASSERT
    ("ABT_pool_create(&def, " +:+ ABT_POOL_CONFIG_NULL_text +:+ ", &p)") 301 r;;
  mret (make_managed_pool p).

(** [static managed<pool> create(access a, kind k = kind::fifo)] *)
Definition create (a : access) (k : kind) : M W (managed pool) :=
  '(r, p) ← call (ABT_pool_create_basic (ABT_pool_kind_of k)
                    (ABT_pool_access_of a) ABT_FALSE);
  TL_POOL_ASSERT
    ("ABT_pool_create_basic((ABT_pool_kind)k, (ABT_pool_access)a, "
       +:+ ABT_FALSE_text +:+ ", &p)")
    319 r;;
  mret (make_managed_pool p).

(** [template <typename U> U* pop()] *)
Definition pop (self : pool) : M W address :=
  '(r, u) ← call (ABT_pool_pop (m_pool self));
  TL_POOL_ASSERT "ABT_pool_pop(m_pool, &u)" 440 r;;
  mret u.

(** [template <typename U> void push(U* unit)] *)
Definition push (self : pool) (unit : address) : M W () :=
  r ← call (ABT_pool_push (m_pool self) unit);
  TL_POOL_ASSERT "ABT_pool_push(m_pool, reinterpret_cast<ABT_unit>(unit))" 455 r.

(** [template <typename U> void remove(U* unit)] *)
Definition remove (self : pool) (unit : address) : M W () :=
  r ← call (ABT_pool_remove (m_pool self) unit);
  TL_POOL_ASSERT "ABT_pool_remove(m_pool, reinterpret_cast<ABT_unit>(unit))" 466 r.

(** [revive_thread(thread& t, F&& f)]: returns the content of [t] on
    exit ([t.m_thread] is passed by address to the runtime). *)
Definition revive_thread (self : pool) (t : thread) (f : F) : M W thread :=
  fp ← new_function f;
  '(r, h) ← call (ABT_thread_revive (m_pool self) forward_work_unit fp (m_thread t));
  TL_POOL_ASSERT
    "ABT_thread_revive(m_pool, forward_work_unit, reinterpret_cast<void*>(fp), &(t.m_thread))"
    630 r;;
  mret {| m_thread := h |}.

Definition revive_task (self : pool) (t : task) (f : F) : M W task :=
  fp ← new_function f;
  '(r, h) ← call (ABT_task_revive (m_pool self) forward_work_unit fp (m_task t));
  TL_POOL_ASSERT
    "ABT_task_revive(m_pool, forward_work_unit, reinterpret_cast<void*>(fp), &(t.m_task))"
    637 r;;
  mret {| m_task := h |}.
End pool_class.

(** ** Pool objects in storage: moves *)

(** Pool objects by address.  References to objects that are not live
    make a move undefined ([None]). *)

(** [pool(pool&& other)]: the new object is built at [this]. *)
Definition pool_move_ctor `{!AbtConstants} (this other : address)
    (s : gmap Z pool) : option (gmap Z pool) :=
  o ← s !! other;
  Some (<[other := {| m_pool := ABT_POOL_NULL |}]>
          (<[this := {| m_pool := m_pool o |}]> s)).

(** [pool& operator=(pool&& other)] *)
Definition pool_move_assign `{!AbtConstants} (this other : address)
    (s : gmap Z pool) : option (gmap Z pool) :=
  _ ← s !! this;
  o ← s !! other;
  if decide (this = other) then Some s
  else
    Some (<[other := {| m_pool := ABT_POOL_NULL |}]>
            (<[this := {| m_pool := m_pool o |}]> s)).

(** ** A reference model of the native runtime *)

(** Modelled from the spec: the Argobots runtime itself is not part of
    the sources at hand.  The model keeps a table of pools (access
    pattern, opaque per-pool data, and the units of a built-in FIFO pool
    in push order), tables of threads and tasks with the states of the
    unit state machine of section 4.3 (created, pooled, running,
    suspended, joined), a default heap, and the list of handles
    [ABT_pool_free] was called on.  A handle that is not in a table is
    invalid and the call reports an error without touching anything; the
    revive calls require a joined unit (section 4.1).  Creation fails when
    the runtime is out of pools, [operator new] when the heap is
    exhausted. *)
Module abt_model.

Inductive unit_state :=
  st_created | st_pooled | st_running | st_suspended | st_joined.

#[export] Instance unit_state_eq_dec : EqDecision unit_state.
Proof. solve_decision. Defined.

Record npool := Npool {
  np_access : Z;
  np_data : address;
  np_queue : list ABT_unit
}.

Record nunit := Nunit {
  nu_state : unit_state;
  nu_body : option (work_fn * address)
}.

Record abt := Abt {
  next_handle : Z;
  pools_left : nat;
  pool_table : gmap Z npool;
  thread_table : gmap Z nunit;
  task_table : gmap Z nunit;
  heap_next : Z;
  heap_left : nat;
  free_calls : list ABT_pool
}.

(** Stand-ins for the runtime's error codes: this header only compares
    a status with [ABT_SUCCESS]. *)
Definition ERR_MEM : Z := 2.
Definition ERR_INV_POOL : Z := 12.
Definition ERR_INV_THREAD : Z := 18.
Definition ERR_INV_TASK : Z := 20.

Definition error_name (r : Z) : string :=
  if decide (r = 0) then "ABT_SUCCESS"
  else if decide (r = ERR_MEM) then "ABT_ERR_MEM"
  else if decide (r = ERR_INV_POOL) then "ABT_ERR_INV_POOL"
  else if decide (r = ERR_INV_THREAD) then "ABT_ERR_INV_THREAD"
  else if decide (r = ERR_INV_TASK) then "ABT_ERR_INV_TASK"
  else "ABT_ERR_OTHER".

Definition error_description (r : Z) : string :=
  if decide (r = 0) then "The routine returns successfully"
  else if decide (r = ERR_MEM) then "Memory allocation failure"
  else if decide (r = ERR_INV_POOL) then "Invalid pool"
  else if decide (r = ERR_INV_THREAD) then "Invalid thread"
  else if decide (r = ERR_INV_TASK) then "Invalid task"
  else "Other error".

#[export] Instance constants : AbtConstants := {|
  ABT_SUCCESS := 0;
  ABT_POOL_NULL := 0;
  ABT_POOL_CONFIG_NULL := 0;
  ABT_FALSE := 0;
  ABT_POOL_ACCESS_PRIV := 0;
  ABT_POOL_ACCESS_SPSC := 1;
  ABT_POOL_ACCESS_MPSC := 2;
  ABT_POOL_ACCESS_SPMC := 3;
  ABT_POOL_ACCESS_MPMC := 4;
  ABT_POOL_FIFO := 0;
  ABT_POOL_FIFO_WAIT := 1;
  ABT_UNIT_TYPE_THREAD := 0;
  ABT_UNIT_TYPE_TASK := 1;
  abt_error_get_name := error_name;
  abt_error_get_description := error_description;
  FILE__ := "thallium/pool.hpp";
  ABT_FALSE_text := "0";
  ABT_POOL_CONFIG_NULL_text := "((ABT_pool_config)0)"
|}.

(** The null unit returned by a pop on an empty pool. *)
Definition ABT_UNIT_NULL : ABT_unit := 0.

Definition set_pool_table (m : gmap Z npool) (r : abt) : abt :=
  Abt (next_handle r) (pools_left r) m (thread_table r) (task_table r)
      (heap_next r) (heap_left r) (free_calls r).
Definition set_thread_table (m : gmap Z nunit) (r : abt) : abt :=
  Abt (next_handle r) (pools_left r) (pool_table r) m (task_table r)
      (heap_next r) (heap_left r) (free_calls r).
Definition set_task_table (m : gmap Z nunit) (r : abt) : abt :=
  Abt (next_handle r) (pools_left r) (pool_table r) (thread_table r) m
      (heap_next r) (heap_left r) (free_calls r).

Definition heap_new (r : abt) : option address * abt :=
  match heap_left r with
  | O => (None, r)
  | S n =>
      (Some (heap_next r),
       Abt (next_handle r) (pools_left r) (pool_table r) (thread_table r)
           (task_table r) (heap_next r + 1) n (free_calls r))
  end.

Definition heap_delete (p : address) (r : abt) : unit * abt := (tt, r).

Definition pool_get_data (p : ABT_pool) (r : abt) : (status * address) * abt :=
  match pool_table r !! p with
  | Some np => ((0, np_data np), r)
  | None => ((ERR_INV_POOL, 0), r)
  end.

Definition pool_set_data (p : ABT_pool) (d : address) (r : abt) : status * abt :=
  match pool_table r !! p with
  | Some np =>
      (0, set_pool_table
            (<[p := Npool (np_access np) d (np_queue np)]> (pool_table r)) r)
  | None => (ERR_INV_POOL, r)
  end.

(** A new pool with the given access pattern, no data, no units. *)
Definition pool_new (acc : Z) (r : abt) : (status * ABT_pool) * abt :=
  match pools_left r with
  | O => ((ERR_MEM, 0), r)
  | S n =>
      let h := next_handle r in
      ((0, h),
       Abt (h + 1) n (<[h := Npool acc 0 []]> (pool_table r))
           (thread_table r) (task_table r) (heap_next r) (heap_left r)
           (free_calls r))
  end.

Definition pool_create_basic (k acc automatic : Z) (r : abt)
    : (status * ABT_pool) * abt :=
  pool_new acc r.

Definition pool_free (p : ABT_pool) (r : abt) : (status * ABT_pool) * abt :=
  let r' :=
    Abt (next_handle r) (pools_left r) (delete p (pool_table r))
        (thread_table r) (task_table r) (heap_next r) (heap_left r)
        (free_calls r ++ [p]) in
  match pool_table r !! p with
  | Some _ => ((0, 0), r')
  | None => ((ERR_INV_POOL, p), r')
  end.

Definition pool_push (p : ABT_pool) (u : ABT_unit) (r : abt) : status * abt :=
  match pool_table r !! p with
  | Some np =>
      (0, set_pool_table
            (<[p := Npool (np_access np) (np_data np) (np_queue np ++ [u])]>
               (pool_table r)) r)
  | None => (ERR_INV_POOL, r)
  end.

Definition pool_pop (p : ABT_pool) (r : abt) : (status * ABT_unit) * abt :=
  match pool_table r !! p with
  | Some np =>
      match np_queue np with
      | [] => ((0, ABT_UNIT_NULL), r)
      | u :: q =>
          ((0, u),
           set_pool_table
             (<[p := Npool (np_access np) (np_data np) q]> (pool_table r)) r)
      end
  | None => ((ERR_INV_POOL, ABT_UNIT_NULL), r)
  end.

Definition pool_remove (p : ABT_pool) (u : ABT_unit) (r : abt) : status * abt :=
  match pool_table r !! p with
  | Some np =>
      (0, set_pool_table
            (<[p := Npool (np_access np) (np_data np)
                      (filter (λ v, v ≠ u) (np_queue np))]>
               (pool_table r)) r)
  | None => (ERR_INV_POOL, r)
  end.

(** Re-arm a joined unit of [tbl] with a new body. *)
Definition rearm (fn : work_fn) (arg : address) (t : Z) (tbl : gmap Z nunit)
    : option (gmap Z nunit) :=
  match tbl !! t with
  | Some u =>
      if decide (nu_state u = st_joined)
      then Some (<[t := Nunit st_pooled (Some (fn, arg))]> tbl)
      else None
  | None => None
  end.

Definition thread_revive (p : ABT_pool) (fn : work_fn) (arg : address)
    (t : ABT_thread) (r : abt) : (status * ABT_thread) * abt :=
  match rearm fn arg t (thread_table r) with
  | Some tbl =>
      match pool_push p t r with
      | (0, r') => ((0, t), set_thread_table tbl r')
      | (e, _) => ((e, t), r)
      end
  | None => ((ERR_INV_THREAD, t), r)
  end.

Definition task_revive (p : ABT_pool) (fn : work_fn) (arg : address)
    (t : ABT_task) (r : abt) : (status * ABT_task) * abt :=
  match rearm fn arg t (task_table r) with
  | Some tbl =>
      match pool_push p t r with
      | (0, r') => ((0, t), set_task_table tbl r')
      | (e, _) => ((e, t), r)
      end
  | None => ((ERR_INV_TASK, t), r)
  end.

Section instance.
Context {P U F PA UA : Type}.
Local Abbreviation W := (world abt P U F PA UA).

Definition lift {A} (f : abt -> A * abt) (w : W) : A * W :=
  let '(a, r) := f (runtime w) in (a, set_runtime r w).

(** The units a pool holds, in push order. *)
Definition queue_of (h : ABT_pool) (w : W) : option (list ABT_unit) :=
  np_queue <$> pool_table (runtime w) !! h.

Definition drop_pool (h : ABT_pool) (w : W) : W :=
  set_runtime (set_pool_table (delete h (pool_table (runtime w))) (runtime w)) w.

(** [ABT_pool_create]: a new pool, then the definition's [p_init];
    when [p_init] does not return success the pool is given up and the
    call fails. *)
Definition pool_create (def : ABT_pool_def W) (cfg : ABT_pool_config)
    (w : W) : (status * ABT_pool) * W :=
  match lift (pool_new (def_access def)) w with
  | ((0, h), w1) =>
      match def_p_init def h cfg w1 with
      | (Returned 0, w2) => ((0, h), w2)
      | (Returned e, w2) =>
          ((e, 0), drop_pool h w2)
      | (_, w2) => ((ERR_MEM, 0), drop_pool h w2)
      end
  | ((e, h), w1) => ((e, h), w1)
  end.

#[export] Instance native : Native W := {|
  operator_new := lift heap_new;
  operator_delete := λ p, lift (heap_delete p);
  ABT_pool_get_data := λ p, lift (pool_get_data p);
  ABT_pool_set_data := λ p d, lift (pool_set_data p d);
  ABT_pool_create := pool_create;
  ABT_pool_create_basic := λ k a b, lift (pool_create_basic k a b);
  ABT_pool_free := λ p, lift (pool_free p);
  ABT_pool_pop := λ p, lift (pool_pop p);
  ABT_pool_push := λ p u, lift (pool_push p u);
  ABT_pool_remove := λ p u, lift (pool_remove p u);
  ABT_thread_revive := λ p fn arg t, lift (thread_revive p fn arg t);
  ABT_task_revive := λ p fn arg t, lift (task_revive p fn arg t)
|}.
End instance.
End abt_model.

(** ** Owning handles over their lifetime *)

(** The life of [managed<pool>] objects, by address: created by
    [pool::create], moved by construction or assignment, and destructed,
    which runs [destroy()] on the pool they hold and ends the object's
    life.  A step on an object that is not live, or a construction over a
    live one, is not a step ([None]). *)
Inductive owner_op :=
  | op_create (this : address) (a : access) (k : kind)
  | op_move_ctor (this other : address)
  | op_move_assign (this other : address)
  | op_destruct (this : address).

Section owners.
Context {R P U F PA UA : Type}.
Context {abt_constants : AbtConstants}.
Local Abbreviation W := (world R P U F PA UA).
Context {abt_native : Native W}.

Definition owner_step (op : owner_op) (st : gmap Z pool * W)
    : option (gmap Z pool * W) :=
  let '(objs, w) := st in
  match op with
  | op_create this a k =>
      match objs !! this with
      | Some _ => None
      | None =>
          match create a k w with
          | (Returned mp, w') => Some (<[this := m_managed mp]> objs, w')
          | (_, w') => Some (objs, w')
          end
      end
  | op_move_ctor this other =>
      match objs !! this with
      | Some _ => None
      | None => objs' ← pool_move_ctor this other objs; Some (objs', w)
      end
  | op_move_assign this other =>
      objs' ← pool_move_assign this other objs; Some (objs', w)
  | op_destruct this =>
      o ← objs !! this;
      Some (delete this objs, (destroy o w).2)
  end.

Fixpoint owner_run (ops : list owner_op) (st : gmap Z pool * W)
    : option (gmap Z pool * W) :=
  match ops with
  | [] => Some st
  | op :: ops' => st' ← owner_step op st; owner_run ops' st'
  end.
End owners.

(** ** One producer and one consumer on a pool *)

(** A schedule interleaves the producer's pushes with the consumer's
    pops; running it collects what the pops return. *)
Inductive sched_op := do_push (u : address) | do_pop.

Definition pushed (ops : list sched_op) : list address :=
  omap (λ o, match o with do_push u => Some u | do_pop => None end) ops.

Section schedules.
Context {R P U F PA UA : Type}.
Context `{!AbtConstants}.
Local Abbreviation W := (world R P U F PA UA).
Context `{!Native W}.

Fixpoint run_schedule (self : pool) (ops : list sched_op) : M W (list address) :=
  match ops with
  | [] => mret []
  | do_push u :: ops' => push self u;; run_schedule self ops'
  | do_pop :: ops' =>
      u ← pop self;
      us ← run_schedule self ops';
      mret (u :: us)
  end.
End schedules.

(** ** Sample user types *)

(** A unit and a pool that follow the documented models, and a bump
    allocator with a bounded number of cells, used to run the adapter on
    concrete inputs. *)
Module sample.

Record my_unit := My_unit {
  mu_thread : thread;
  mu_task : task;
  mu_type : unit_type;
  mu_in_pool : bool
}.

#[export] Instance my_unit_model : UnitModel my_unit := {|
  U_from_thread t := My_unit t {| m_task := 0 |} ut_thread false;
  U_from_task t := My_unit {| m_thread := 0 |} t ut_task false;
  U_get_type := mu_type;
  U_get_thread := mu_thread;
  U_get_task := mu_task;
  U_is_in_pool := mu_in_pool
|}.

(** An in-order container of unit pointers. *)
Record my_pool := My_pool { mp_units : list address }.

Definition mark (b : bool) (u : address) (units : gmap Z my_unit) :=
  alter (λ v, My_unit (mu_thread v) (mu_task v) (mu_type v) b) u units.

#[export] Instance my_pool_model : PoolModel my_pool my_unit := {|
  P_access_type := mpmc;
  P_default := My_pool [];
  P_get_size p := N.of_nat (length (mp_units p));
  P_push u p units := (My_pool (mp_units p ++ [u]), mark true u units);
  P_pop p units :=
    match mp_units p with
    | [] => (nullptr, p, units)
    | u :: q => (u, My_pool q, mark false u units)
    end;
  P_remove u p units :=
    (My_pool (filter (λ v, v ≠ u) (mp_units p)), mark false u units)
|}.

Record bump := Bump { bump_next : address; bump_left : nat }.

#[export] Instance bump_allocator : Allocator bump := {|
  allocate n a :=
    if decide (n ≤ bump_left a)%nat
    then Some (bump_next a, Bump (bump_next a + Z.of_nat n) (bump_left a - n))
    else None;
  deallocate p n a := Bump (bump_next a) (bump_left a + n)
|}.

Definition runtime0 : abt_model.abt :=
  abt_model.Abt 1 4 ∅ ∅ ∅ 4096 8 [].

(** A world with no objects, room for four pools and a few cells.
    Callables are identified by a number. *)
Definition world0 : world abt_model.abt my_pool my_unit nat bump bump :=
  World runtime0 (Bump 256 4) (Bump 512 4) ∅ ∅ ∅ [].

(** The same world with the runtime out of pools. *)
Definition world_full : world abt_model.abt my_pool my_unit nat bump bump :=
  World (abt_model.Abt 1 0 ∅ ∅ ∅ 4096 8 []) (Bump 256 4) (Bump 512 4) ∅ ∅ ∅ [].


(** [world0] after a custom pool was created: its handle is [1], its
    [my_pool] object lives at [256]. *)
Definition world_custom : world abt_model.abt my_pool my_unit nat bump bump :=
  World (abt_model.Abt 2 3 {[ 1 := abt_model.Npool 4 256 [] ]} ∅ ∅ 4096 8 [])
        (Bump 257 3) (Bump 512 4) {[ 256 := My_pool [] ]} ∅ ∅
        [Allocate pool_arena 256 1; Construct pool_arena 256].

(** [world0] after a unit was created from the thread handle [42]. *)
Definition world_unit : world abt_model.abt my_pool my_unit nat bump bump :=
  World runtime0 (Bump 256 4) (Bump 513 3) ∅
        {[ 512 := My_unit {| m_thread := 42 |} {| m_task := 0 |} ut_thread false ]}
        ∅ [Allocate unit_arena 512 1; Construct unit_arena 512].

(** A world with the built-in pool [1], a joined thread [5], a joined
    task [6] and a running thread [7]. *)
Definition world_joined : world abt_model.abt my_pool my_unit nat bump bump :=
  World (abt_model.Abt 8 3 {[ 1 := abt_model.Npool 4 0 [] ]}
           {[ 5 := abt_model.Nunit abt_model.st_joined None;
              7 := abt_model.Nunit abt_model.st_running
                     (Some (forward_work_unit, 4000)) ]}
           {[ 6 := abt_model.Nunit abt_model.st_joined None ]}
           4096 8 [])
        (Bump 256 4) (Bump 512 4) ∅ ∅ ∅ [].
End sample.

(** ** Invariant of owning handles on the reference runtime *)

(** Handles are handed out in increasing order; a handle passed to
    [ABT_pool_free] was handed out before and is passed once; a non-null
    handle held by a live owner was handed out, has not been freed, and is
    held by that owner only. *)
Record owners_inv (objs : gmap Z pool) (r : abt_model.abt) : Prop := {
  inv_next : 0 < abt_model.next_handle r;
  inv_nodup : NoDup (abt_model.free_calls r);
  inv_freed : ∀ h, h ∈ abt_model.free_calls r → h < abt_model.next_handle r;
  inv_held : ∀ a o, objs !! a = Some o → m_pool o ≠ 0 →
               m_pool o < abt_model.next_handle r
               ∧ m_pool o ∉ abt_model.free_calls r;
  inv_unique : ∀ a1 a2 o1 o2,
               objs !! a1 = Some o1 → objs !! a2 = Some o2 →
               m_pool o1 = m_pool o2 → m_pool o1 ≠ 0 → a1 = a2
}.

(** ** Sequences of calls through the adapter *)

(** The pool entry points the runtime may call on a custom pool, and what
    each call hands back. *)
Inductive adapter_op :=
  | a_push (u : ABT_unit)
  | a_pop
  | a_remove (u : ABT_unit)
  | a_get_size.

Inductive adapter_res :=
  | r_done
  | r_popped (u : ABT_unit)
  | r_status (s : Z)
  | r_size (n : N).

Section adapter_runs.
Context {R P U F PA UA : Type}.
Context `{!AbtConstants, !UnitModel U, !PoolModel P U}.
Context `{!Allocator PA, !Allocator UA}.
Local Abbreviation W := (world R P U F PA UA).
Context `{!Native W}.

Definition run_adapter_op (p : ABT_pool) (op : adapter_op) : M W adapter_res :=
  match op with
  | a_push u => p_push p u;; mret r_done
  | a_pop => u ← p_pop p; mret (r_popped u)
  | a_remove u => s ← p_remove p u; mret (r_status s)
  | a_get_size => n ← p_get_size p; mret (r_size n)
  end.

Fixpoint run_adapter (p : ABT_pool) (ops : list adapter_op) : M W (list adapter_res) :=
  match ops with
  | [] => mret []
  | op :: ops' =>
      r ← run_adapter_op p op;
      rs ← run_adapter p ops';
      mret (r :: rs)
  end.

(** The same operations applied to a [P] object directly. *)
Definition P_step (op : adapter_op) (st : P * gmap Z U) : adapter_res * (P * gmap Z U) :=
  let '(impl, units) := st in
  match op with
  | a_push u => (r_done, P_push u impl units)
  | a_pop => let '(u, impl', units') := P_pop impl units in (r_popped u, (impl', units'))
  | a_remove u => (r_status ABT_SUCCESS, P_remove u impl units)
  | a_get_size => (r_size (P_get_size impl), (impl, units))
  end.

Fixpoint P_run (ops : list adapter_op) (st : P * gmap Z U)
    : list adapter_res * (P * gmap Z U) :=
  match ops with
  | [] => ([], st)
  | op :: ops' =>
      let '(r, st') := P_step op st in
      let '(rs, st'') := P_run ops' st' in
      (r :: rs, st'')
  end.
End adapter_runs.

(** A query [q] answers with [g]: it reads the unit its handle points to
    and nothing else, and is undefined on a handle to no live unit. *)
Definition answers {R P U F PA UA A : Type}
    (q : ABT_unit → M (world R P U F PA UA) A) (g : U → A) : Prop :=
  ∀ u w, q u w = match unit_objs w !! u with
                 | Some v => (Returned (g v), w)
                 | None => (Undefined, w)
                 end.

(** ** Work functions *)

(** What calling a [std::function<void(void)>] does is up to the
    callable it wraps. *)
Class Callable (F W : Type) := {
  invoke : F -> M W unit
}.

Section work_functions.
Context {R P U F PA UA : Type}.
Local Abbreviation W := (world R P U F PA UA).
Context `{!Native W, !Callable F W}.

(** Dereference of a [std::function<void(void)>*]. *)
Definition deref_fun (fp : address) : M W F := fun w =>
  match fun_objs w !! fp with
  | Some f => (Returned f, w)
  | None => (Undefined, w)
  end.

(** [delete f]: the destructor, then [operator delete]. *)
Definition delete_function (fp : address) : M W unit := fun w =>
  match fun_objs w !! fp with
  | Some _ =>
      let w1 := log_event (Destroy default_heap fp)
                  (set_fun_objs (delete fp (fun_objs w)) w) in
      (Returned tt, log_event (Deallocate default_heap fp 1) (operator_delete fp w1).2)
  | None => (Undefined, w)
  end.

(** The body of [static void forward_work_unit(void* fp)]. *)
Definition run_forward_work_unit (fp : address) : M W unit :=
  f ← deref_fun fp;
  invoke f;;
  delete_function fp.
End work_functions.

(** ** The queries and the remaining calls of [pool] *)

(** Modelled from the spec: [thallium/scheduler.hpp] is not part of the
    sources at hand; a scheduler holds a native handle, which
    [native_handle()] returns. *)
Record scheduler := { m_sched : Z }.

(** The further entry points of the runtime called by [pool]. *)
Class NativeQueries (W : Type) := {
  ABT_pool_get_access : ABT_pool -> W -> (status * Z) * W;
  ABT_pool_get_total_size : ABT_pool -> W -> (status * N) * W;
  ABT_pool_get_size : ABT_pool -> W -> (status * N) * W;
  ABT_pool_get_id : ABT_pool -> W -> (status * Z) * W;
  ABT_xstream_run_unit : ABT_unit -> ABT_pool -> W -> status * W;
  ABT_pool_add_sched : ABT_pool -> Z -> W -> status * W
}.

(** [bool operator==(const pool&)], [operator!=], [operator bool()] *)
Definition pool_eq (self other : pool) : bool :=
  bool_decide (m_pool self = m_pool other).
Definition pool_ne (self other : pool) : bool := negb (pool_eq self other).
Definition operator_bool `{!AbtConstants} (self : pool) : bool := negb (is_null self).

(** The members are kept in a module of their own: [size] and [id] are
    names of the library too. *)
Module pool_members.
Section pool_queries.
Context {R P U F PA UA : Type}.
Context `{!AbtConstants}.
Local Abbreviation W := (world R P U F PA UA).
Context `{!NativeQueries W}.

(** [access get_access() const]: the enum value is given by its
    underlying integer, as the cast [(access)a] accepts any. *)
Definition get_access (self : pool) : M W Z :=
  '(r, a) ← call (ABT_pool_get_access (m_pool self));
  TL_POOL_ASSERT "ABT_pool_get_access(m_pool, &a)" 391 r;;
  mret a.

Definition total_size (self : pool) : M W N :=
  '(r, s) ← call (ABT_pool_get_total_size (m_pool self));
  TL_POOL_ASSERT "ABT_pool_get_total_size(m_pool, &s)" 404 r;;
  mret s.

Definition size (self : pool) : M W N :=
  '(r, s) ← call (ABT_pool_get_size (m_pool self));
  TL_POOL_ASSERT "ABT_pool_get_size(m_pool, &s)" 416 r;;
  mret s.

Definition id (self : pool) : M W Z :=
  '(r, i) ← call (ABT_pool_get_id (m_pool self));
  TL_POOL_ASSERT "ABT_pool_get_id(m_pool, &i)" 427 r;;
  mret i.

(** [template <typename U> void run_unit(U* unit)] *)
Definition run_unit (self : pool) (unit : address) : M W () :=
  r ← call (ABT_xstream_run_unit unit (m_pool self));
  TL_POOL_ASSERT "ABT_xstream_run_unit(reinterpret_cast<ABT_unit>(unit), m_pool)" 479 r.

(** [void add_sched(const scheduler& sched)], with its own [throw]. *)
Definition add_sched (self : pool) (sched : scheduler) : M W () :=
  r ← call (ABT_pool_add_sched (m_pool self) (m_sched sched));
  if decide (r ≠ ABT_SUCCESS) then
    throw (pool_exception
             [Str "ABT_pool_add_sched(m_pool, sched.native_handle()) returned ";
              Str (abt_error_get_name r); Str " (";
              Str (abt_error_get_description r); Str ") in "; Str FILE__;
              Str ":"; Int 581])
  else mret tt.
End pool_queries.
End pool_members.

(** A wrapper [c] checks the runtime call [native]: it makes that call
    once, returns its result when the status is [ABT_SUCCESS], and
    otherwise throws the [TL_POOL_EXCEPTION] of the call's text. *)
Definition checks `{!AbtConstants} {W A : Type} (c : M W A)
    (native : W → (status * A) * W) (text : string) (line : Z) : Prop :=
  ∀ w, c w = if decide ((native w).1.1 = ABT_SUCCESS)
             then (Returned (native w).1.2, (native w).2)
             else (Threw (TL_POOL_EXCEPTION text line (native w).1.1), (native w).2).

(** A runtime call without out-parameter, as a call with a trivial one. *)
Definition status_only {W : Type} (native : W → status * W) (w : W)
    : (status * unit) * W :=
  (((native w).1, tt), (native w).2).

(** The string pieces of an exception's arguments, in order, joined. *)
Fixpoint joined_text (args : list exn_arg) : string :=
  match args with
  | [] => ""
  | Str s :: rest => s +:+ joined_text rest
  | Int _ :: rest => joined_text rest
  end.

(** [pool(const pool& other) = default] and the defaulted copy
    assignment: the member is copied. *)
Definition pool_copy_ctor (this other : address) (s : gmap Z pool)
    : option (gmap Z pool) :=
  o ← s !! other;
  Some (<[this := {| m_pool := m_pool o |}]> s).

Definition pool_copy_assign (this other : address) (s : gmap Z pool)
    : option (gmap Z pool) :=
  _ ← s !! this;
  o ← s !! other;
  Some (<[this := {| m_pool := m_pool o |}]> s).

(** ** The reference runtime: queries, and sample callables *)

(** Modelled from the spec: the queries of the reference runtime.  It
    keeps no blocked units, so the total size of a pool is its size; the
    id of a pool is its handle; running a unit or adding a scheduler
    succeeds on a valid pool and changes nothing here. *)
Module abt_queries.
Import abt_model.

Definition on_pool {A} (p : ABT_pool) (f : npool -> A) (dflt : A) (r : abt)
    : (status * A) * abt :=
  match pool_table r !! p with
  | Some np => ((0, f np), r)
  | None => ((ERR_INV_POOL, dflt), r)
  end.

Section instance.
Context {P U F PA UA : Type}.
Local Abbreviation W := (world abt P U F PA UA).

#[export] Instance queries : NativeQueries W := {|
  ABT_pool_get_access := λ p, lift (on_pool p np_access 0);
  ABT_pool_get_total_size := λ p, lift (on_pool p (λ np, N.of_nat (length (np_queue np))) 0%N);
  ABT_pool_get_size := λ p, lift (on_pool p (λ np, N.of_nat (length (np_queue np))) 0%N);
  ABT_pool_get_id := λ p, lift (on_pool p (λ _, p) 0);
  ABT_xstream_run_unit := λ u p w, ((lift (on_pool p (λ _, tt) tt) w).1.1, w);
  ABT_pool_add_sched := λ p s w, ((lift (on_pool p (λ _, tt) tt) w).1.1, w)
|}.

(** Sample callables, identified by a number: [0] throws, any other
    returns without touching anything. *)
#[export] Instance number_callable : Callable nat W := {|
  invoke n := if decide (n = 0%nat) then throw bad_alloc else mret tt
|}.
End instance.
End abt_queries.

(** ** Further invariants of owning handles on the reference runtime *)

(** Every non-null handle held by a live owner names a pool of the
    runtime. *)
Definition owners_alive (objs : gmap Z pool) (r : abt_model.abt) : Prop :=
  ∀ a o, objs !! a = Some o → m_pool o ≠ 0 →
         is_Some (abt_model.pool_table r !! m_pool o).

(** The handle [h] was handed out, names a pool, was never passed to
    [ABT_pool_free], and no live owner holds it. *)
Definition orphaned (h : ABT_pool) (objs : gmap Z pool) (r : abt_model.abt) : Prop :=
  h ≠ 0 ∧ h < abt_model.next_handle r
  ∧ is_Some (abt_model.pool_table r !! h)
  ∧ (h ∉ abt_model.free_calls r)
  ∧ (∀ a o, objs !! a = Some o → m_pool o ≠ h).

(** * Properties *)

Ltac monad_unfold :=
  unfold mbind, mret, M_bind, M_ret, bind, ret, throw, undefined, gets,
    modify, call in *.

(** ** The adapter's pool entry points *)

Section adapter_pool_facts.
Context {R P U F PA UA : Type}.
Context `{!AbtConstants, !UnitModel U, !PoolModel P U}.
Context `{!Allocator PA, !Allocator UA}.
Local Abbreviation W := (world R P U F PA UA).
Context `{!Native W}.

(** C1, as amended: when the lookup of the pool's opaque state fails
    with status [r], the adapter's [p_remove] returns that status [r]
    (not [ABT_SUCCESS]) to the runtime and does nothing else: it throws
    nothing, [P::remove] is not called, and the world is the one the
    lookup left. *)
Theorem p_remove_lookup_failure (p : ABT_pool) (u : ABT_unit) (w w' : W)
    (r : status) (data : address) :
  ABT_pool_get_data p w = ((r, data), w') →
  r ≠ ABT_SUCCESS →
  p_remove p u w = (Returned r, w').
Proof.
  intros Hget Hr.
  unfold p_remove. monad_unfold. rewrite Hget. simpl.
  destruct (decide (r ≠ ABT_SUCCESS)); [reflexivity|contradiction].
Qed.

(** C5: when the lookup of the opaque state succeeds and yields a live
    [P] object, [p_get_size], [p_push] and [p_pop] forward to
    [P::get_size], [P::push] and [P::pop] of that object and add
    nothing: [p_get_size] returns what [P::get_size] returns, [p_pop]
    returns the pointer [P::pop] returns (null included), and the only
    change to the world after the lookup is the one the [P] method
    made. *)
Theorem adapter_forwards (p : ABT_pool) (w w' : W) (data : address) (impl : P) :
  ABT_pool_get_data p w = ((ABT_SUCCESS, data), w') →
  pool_objs w' !! data = Some impl →
  p_get_size p w = (Returned (P_get_size impl), w')
  ∧ (∀ u, p_push p u w =
          (Returned tt,
           forwarded data (P_push u impl (unit_objs w')).1
                     (P_push u impl (unit_objs w')).2 w'))
  ∧ p_pop p w =
      (Returned (P_pop impl (unit_objs w')).1.1,
       forwarded data (P_pop impl (unit_objs w')).1.2
                 (P_pop impl (unit_objs w')).2 w').
Proof.
  intros Hget Hobj. repeat split.
  - unfold p_get_size, TL_POOL_ASSERT, deref_pool. monad_unfold.
    rewrite Hget. simpl. rewrite decide_True by reflexivity.
    by rewrite Hobj.
  - intros u. unfold p_push, TL_POOL_ASSERT, deref_pool. monad_unfold.
    rewrite Hget. simpl. rewrite decide_True by reflexivity.
    rewrite Hobj. by destruct (P_push u impl (unit_objs w')).
  - unfold p_pop, TL_POOL_ASSERT, deref_pool. monad_unfold.
    rewrite Hget. simpl. rewrite decide_True by reflexivity.
    rewrite Hobj. by destruct (P_pop impl (unit_objs w')) as [[??]?].
Qed.
End adapter_pool_facts.

(** ** The adapter's unit entry points *)

Section adapter_unit_facts.
Context {R P U F PA UA : Type}.
Context `{!AbtConstants, !UnitModel U}.
Context `{!Allocator UA}.
Local Abbreviation W := (world R P U F PA UA).

(** The world after one unit was allocated at [uu] and constructed as
    [v]: only the unit allocator, the unit store and the log differ. *)
Lemma unit_created (uu : address) (a : UA) (v : U) (w : W) :
  allocate 1 (unit_allocator w) = Some (uu, a) →
  (uu' ← unit_allocate 1; unit_construct uu' v;; mret uu') w =
    (Returned uu,
     World (runtime w) (pool_allocator w) a (pool_objs w)
           (<[uu := v]> (unit_objs w)) (fun_objs w)
           (mem_log w ++ [Allocate unit_arena uu 1; Construct unit_arena uu])).
Proof.
  intros Ha. unfold unit_allocate, unit_construct. monad_unfold.
  rewrite Ha. unfold log_event, set_unit_objs, set_unit_allocator. simpl.
  by rewrite <- app_assoc.
Qed.

Lemma unit_not_created (v : U) (w : W) :
  allocate 1 (unit_allocator w) = None →
  (uu' ← unit_allocate 1; unit_construct uu' v;; mret uu') w = (Threw bad_alloc, w).
Proof.
  intros Ha. unfold unit_allocate. monad_unfold. by rewrite Ha.
Qed.

Lemma u_free_live (u : ABT_unit) (v : U) (w : W) :
  unit_objs w !! u = Some v →
  u_free u w =
    (Returned nullptr,
     World (runtime w) (pool_allocator w) (deallocate u 1 (unit_allocator w))
           (pool_objs w) (delete u (unit_objs w)) (fun_objs w)
           (mem_log w ++ [Destroy unit_arena u; Deallocate unit_arena u 1])).
Proof.
  intros Hu. unfold u_free, unit_destroy, unit_deallocate. monad_unfold.
  rewrite Hu. unfold log_event, set_unit_objs, set_unit_allocator. simpl.
  by rewrite <- app_assoc.
Qed.

Lemma u_free_dead (u : ABT_unit) (w : W) :
  unit_objs w !! u = None → u_free u w = (Undefined, w).
Proof.
  intros Hu. unfold u_free, unit_destroy. monad_unfold. by rewrite Hu.
Qed.

(** C3: a unit is created from a thread or a task handle by one
    [allocate] and one [construct] through [unit_allocator] and nothing
    else (the pool allocator, the default heap and the other stores are
    untouched; when the allocator throws, nothing happened); [u_free]
    on a live unit is one [destroy] and one [deallocate] through that
    same allocator; and over the life of a unit (created at a free
    address, then freed) the log gains exactly these four events, the
    unit store is back to what it was, and a second [u_free] of the
    same handle is undefined. *)
Theorem units_through_unit_allocator (w : W) :
  (∀ t uu a, allocate 1 (unit_allocator w) = Some (uu, a) →
     u_create_from_thread t w =
       (Returned uu,
        World (runtime w) (pool_allocator w) a (pool_objs w)
              (<[uu := U_from_thread {| m_thread := t |}]> (unit_objs w))
              (fun_objs w)
              (mem_log w ++ [Allocate unit_arena uu 1; Construct unit_arena uu])))
  ∧ (∀ t uu a, allocate 1 (unit_allocator w) = Some (uu, a) →
     u_create_from_task t w =
       (Returned uu,
        World (runtime w) (pool_allocator w) a (pool_objs w)
              (<[uu := U_from_task {| m_task := t |}]> (unit_objs w))
              (fun_objs w)
              (mem_log w ++ [Allocate unit_arena uu 1; Construct unit_arena uu])))
  ∧ (allocate 1 (unit_allocator w) = None →
     ∀ t, u_create_from_thread t w = (Threw bad_alloc, w)
          ∧ u_create_from_task t w = (Threw bad_alloc, w))
  ∧ (∀ u v, unit_objs w !! u = Some v →
     u_free u w =
       (Returned nullptr,
        World (runtime w) (pool_allocator w) (deallocate u 1 (unit_allocator w))
              (pool_objs w) (delete u (unit_objs w)) (fun_objs w)
              (mem_log w ++ [Destroy unit_arena u; Deallocate unit_arena u 1])))
  ∧ (∀ t uu a, allocate 1 (unit_allocator w) = Some (uu, a) →
     unit_objs w !! uu = None →
     ∃ w1 w2,
       u_create_from_thread t w = (Returned uu, w1)
       ∧ u_free uu w1 = (Returned nullptr, w2)
       ∧ mem_log w2 =
           mem_log w ++ [Allocate unit_arena uu 1; Construct unit_arena uu;
                         Destroy unit_arena uu; Deallocate unit_arena uu 1]
       ∧ unit_objs w2 = unit_objs w
       ∧ pool_allocator w2 = pool_allocator w
       ∧ runtime w2 = runtime w
       ∧ u_free uu w2 = (Undefined, w2)).
Proof.
  split; [|split; [|split; [|split]]].
  - intros t uu a Ha. by apply unit_created.
  - intros t uu a Ha. by apply unit_created.
  - intros Ha t. split; by apply unit_not_created.
  - intros u v Hu. by apply (u_free_live _ v).
  - intros t uu a Ha Hfree. eexists _, _.
    split; [by apply unit_created|].
    split; [apply (u_free_live _ (U_from_thread {| m_thread := t |})); simpl;
            apply lookup_insert_eq|].
    simpl. rewrite <- app_assoc. simpl.
    rewrite delete_insert_id by done.
    repeat split; try done.
    apply u_free_dead. simpl. done.
Qed.


(** C4: for a unit type whose constructors store the thread (the task)
    that [get_thread()] ([get_task()]) returns, creating a unit from a
    native handle and reading the handle back through the adapter
    yields that handle; the creation returns whenever the unit
    allocator provides storage. *)
Theorem unit_handle_roundtrip (w : W) (uu : address) (a : UA) :
  (∀ th, U_get_thread (U_from_thread th) = th) →
  (∀ tk, U_get_task (U_from_task tk) = tk) →
  allocate 1 (unit_allocator w) = Some (uu, a) →
  (∀ t, ∃ w', u_create_from_thread t w = (Returned uu, w')
              ∧ u_get_thread uu w' = (Returned t, w'))
  ∧ (∀ t, ∃ w', u_create_from_task t w = (Returned uu, w')
                ∧ u_get_task uu w' = (Returned t, w')).
Proof.
  intros Hth Htk Ha. split; intros t; eexists.
  - split; [by apply unit_created|].
    unfold u_get_thread, deref_unit. monad_unfold. simpl.
    rewrite lookup_insert_eq. by rewrite Hth.
  - split; [by apply unit_created|].
    unfold u_get_task, deref_unit. monad_unfold. simpl.
    rewrite lookup_insert_eq. by rewrite Htk.
Qed.
End adapter_unit_facts.

(** ** Creating pools *)

Section creation_facts.
Context {R P U F PA UA : Type}.
Context `{!AbtConstants, !UnitModel U, !PoolModel P U}.
Context `{!Allocator PA, !Allocator UA}.
Local Abbreviation W := (world R P U F PA UA).
Context `{!Native W}.

Lemma TL_POOL_ASSERT_success (text : string) (line : Z) (w : W) :
  TL_POOL_ASSERT text line ABT_SUCCESS w = (Returned tt, w).
Proof. unfold TL_POOL_ASSERT. by rewrite decide_True. Qed.

Lemma TL_POOL_ASSERT_failure (text : string) (line : Z) (r : status) (w : W) :
  r ≠ ABT_SUCCESS →
  TL_POOL_ASSERT text line r w = (Threw (TL_POOL_EXCEPTION text line r), w).
Proof. intros Hr. unfold TL_POOL_ASSERT. by rewrite decide_False. Qed.


(** C6: the table [create<P, U>()] hands to [ABT_pool_create] has
    [P::access_type] as its access and the adapter's functions in every
    slot; [create<P, U>()] returns the managed pool of the created
    handle when that call succeeds and throws the [pool_exception] of
    the call when it fails (its text is the call's, with
    [ABT_POOL_CONFIG_NULL] spelled as expanded); and [p_init], when the
    pool allocator provides storage, allocates and default-constructs one
    [P] through it, registers its address with [ABT_pool_set_data], and
    returns the status of that registration. *)
Theorem create_custom_outcome (w : W) :
  (def_access pool_def_table = ABT_pool_access_of P_access_type
   ∧ def_u_get_type pool_def_table = u_get_type
   ∧ def_u_get_thread pool_def_table = u_get_thread
   ∧ def_u_get_task pool_def_table = u_get_task
   ∧ def_u_is_in_pool pool_def_table = u_is_in_pool
   ∧ def_u_create_from_thread pool_def_table = u_create_from_thread
   ∧ def_u_create_from_task pool_def_table = u_create_from_task
   ∧ def_u_free pool_def_table = u_free
   ∧ def_p_init pool_def_table = p_init
   ∧ def_p_get_size pool_def_table = p_get_size
   ∧ def_p_push pool_def_table = p_push
   ∧ def_p_pop pool_def_table = p_pop
   ∧ def_p_remove pool_def_table = p_remove
   ∧ def_p_free pool_def_table = p_free)
  ∧ (∀ r p w',
       ABT_pool_create pool_def_table ABT_POOL_CONFIG_NULL w = ((r, p), w') →
       (r = ABT_SUCCESS →
          create_custom w = (Returned (make_managed_pool p), w'))
       ∧ (r ≠ ABT_SUCCESS →
          create_custom w =
            (Threw (TL_POOL_EXCEPTION
                      ("ABT_pool_create(&def, " +:+ ABT_POOL_CONFIG_NULL_text
                         +:+ ", &p)") 301 r),
             w')))
  ∧ (∀ p cfg impl a,
       allocate 1 (pool_allocator w) = Some (impl, a) →
       let w1 :=
         World (runtime w) a (unit_allocator w)
               (<[impl := P_default]> (pool_objs w)) (unit_objs w) (fun_objs w)
               (mem_log w ++ [Allocate pool_arena impl 1; Construct pool_arena impl]) in
       p_init p cfg w =
         (Returned (ABT_pool_set_data p impl w1).1, (ABT_pool_set_data p impl w1).2)).
Proof.
  split; [by repeat split|]. split.
  - intros r p w' Hcall. split.
    + intros ->. unfold create_custom. monad_unfold. rewrite Hcall. simpl.
      by rewrite TL_POOL_ASSERT_success.
    + intros Hr. unfold create_custom. monad_unfold. rewrite Hcall. simpl.
      by rewrite TL_POOL_ASSERT_failure.
  - intros p cfg impl a Ha w1. unfold p_init, pool_allocate, pool_construct.
    monad_unfold. rewrite Ha.
    unfold log_event, set_pool_objs, set_pool_allocator. simpl.
    rewrite <- app_assoc. simpl. fold w1.
    by destruct (ABT_pool_set_data p impl w1).
Qed.
End creation_facts.

(** ** Moving and destroying pool handles *)

Section handle_facts.
Context {R P U F PA UA : Type}.
Context `{!AbtConstants}.
Local Abbreviation W := (world R P U F PA UA).
Context `{!Native W}.

Lemma pool_move_ctor_transfers (this other : address) (o : pool) (s : gmap Z pool) :
  s !! other = Some o → this ≠ other →
  ∃ s', pool_move_ctor this other s = Some s'
        ∧ s' !! this = Some {| m_pool := m_pool o |}
        ∧ s' !! other = Some {| m_pool := ABT_POOL_NULL |}
        ∧ (∀ x, x ≠ this → x ≠ other → s' !! x = s !! x).
Proof.
  intros Ho Hne. unfold pool_move_ctor. rewrite Ho. simpl.
  eexists. split; [done|]. split; [|split].
  - rewrite lookup_insert_ne by done. apply lookup_insert_eq.
  - apply lookup_insert_eq.
  - intros x ??. by rewrite !lookup_insert_ne.
Qed.

Lemma pool_move_assign_transfers (this other : address) (x o : pool) (s : gmap Z pool) :
  s !! this = Some x → s !! other = Some o → this ≠ other →
  ∃ s', pool_move_assign this other s = Some s'
        ∧ s' !! this = Some {| m_pool := m_pool o |}
        ∧ s' !! other = Some {| m_pool := ABT_POOL_NULL |}
        ∧ (∀ y, y ≠ this → y ≠ other → s' !! y = s !! y).
Proof.
  intros Hx Ho Hne. unfold pool_move_assign. rewrite Hx, Ho. simpl.
  rewrite decide_False by done.
  eexists. split; [done|]. split; [|split].
  - rewrite lookup_insert_ne by done. apply lookup_insert_eq.
  - apply lookup_insert_eq.
  - intros y ??. by rewrite !lookup_insert_ne.
Qed.

Lemma pool_move_assign_self (this : address) (x : pool) (s : gmap Z pool) :
  s !! this = Some x → pool_move_assign this this s = Some s.
Proof.
  intros Hx. unfold pool_move_assign. rewrite Hx. simpl.
  by rewrite decide_True.
Qed.

Lemma destroy_null (self : pool) (w : W) :
  m_pool self = ABT_POOL_NULL → destroy self w = (Returned self, w).
Proof. intros Hn. unfold destroy. by rewrite decide_False by tauto. Qed.

Lemma destroy_live (self : pool) (w : W) :
  m_pool self ≠ ABT_POOL_NULL →
  destroy self w =
    (Returned {| m_pool := (ABT_pool_free (m_pool self) w).1.2 |},
     (ABT_pool_free (m_pool self) w).2).
Proof.
  intros Hn. unfold destroy. rewrite decide_True by done. monad_unfold.
  by destruct (ABT_pool_free (m_pool self) w) as [[??]?].
Qed.
End handle_facts.

(** ** Teardown of owned pools on the reference runtime *)

Import abt_model.

Section model_owner_facts.
Context {P U F PA UA : Type}.
Local Abbreviation W := (world abt P U F PA UA).

Lemma create_model (a : access) (k : kind) (w : W) :
  (∃ n, pools_left (runtime w) = S n
        ∧ (create a k w).1 = Returned (make_managed_pool (next_handle (runtime w)))
        ∧ next_handle (runtime (create a k w).2) = next_handle (runtime w) + 1
        ∧ free_calls (runtime (create a k w).2) = free_calls (runtime w))
  ∨ (pools_left (runtime w) = 0%nat
     ∧ (∃ e, (create a k w).1 = Threw e)
     ∧ runtime (create a k w).2 = runtime w).
Proof.
  unfold create, TL_POOL_ASSERT. monad_unfold. simpl.
  unfold lift, pool_create_basic, pool_new.
  destruct (pools_left (runtime w)) as [|n] eqn:Hleft; simpl.
  - right. split; [done|]. split; [by eexists|done].
  - left. exists n. by repeat split.
Qed.

Lemma destroy_model (o : pool) (w : W) :
  m_pool o ≠ 0 →
  next_handle (runtime (destroy o w).2) = next_handle (runtime w)
  ∧ free_calls (runtime (destroy o w).2) = free_calls (runtime w) ++ [m_pool o].
Proof.
  intros Hn. rewrite destroy_live by done. simpl.
  unfold lift, pool_free. simpl.
  by destruct (pool_table (runtime w) !! m_pool o).
Qed.

Lemma owners_inv_moved (this other : address) (o : pool) (objs : gmap Z pool)
    (r : abt) :
  objs !! other = Some o → this ≠ other →
  owners_inv objs r →
  owners_inv (<[other := {| m_pool := ABT_POOL_NULL |}]>
                (<[this := {| m_pool := m_pool o |}]> objs)) r.
Proof.
  intros Ho Hne [Hnext Hnd Hfreed Hheld Huniq].
  split; try done.
  - intros a x Hx Hnz.
    apply lookup_insert_Some in Hx as [[<- <-]|[Ha Hx]]; [done|].
    apply lookup_insert_Some in Hx as [[<- <-]|[Ha' Hx]]; simpl in *; eauto.
  - intros a1 a2 o1 o2 H1 H2 Heq Hnz.
    apply lookup_insert_Some in H1 as [[<- <-]|[Ha1 H1]]; [done|].
    apply lookup_insert_Some in H2 as [[<- <-]|[Ha2 H2]];
      [simpl in Heq; rewrite Heq in Hnz; done|].
    apply lookup_insert_Some in H1 as [[<- <-]|[Hb1 H1]];
      apply lookup_insert_Some in H2 as [[<- <-]|[Hb2 H2]]; simpl in *.
    + done.
    + exfalso. apply Ha2. symmetry. eapply Huniq; eauto.
    + exfalso. apply Ha1. eapply Huniq; eauto. congruence.
    + eauto.
Qed.

Lemma owner_step_inv (op : owner_op) (objs objs' : gmap Z pool) (w w' : W) :
  owner_step op (objs, w) = Some (objs', w') →
  owners_inv objs (runtime w) → owners_inv objs' (runtime w').
Proof.
  intros Hstep Hinv. destruct op as [this a k|this other|this other|this]; simpl in Hstep.
  - destruct (objs !! this) eqn:Hthis; [done|].
    destruct (create_model a k w) as [(n & Hleft & Hres & Hnext & Hcalls)|(Hleft & [e He] & Hrt)];
      destruct (create a k w) as [res w1]; simpl in *; subst res;
      injection Hstep as <- <-.
    + destruct Hinv as [Hn Hnd Hfreed Hheld Huniq].
      split; rewrite ?Hnext, ?Hcalls; try done; try lia.
      * intros h Hh. apply Hfreed in Hh. lia.
      * intros a0 o Ho Hnz.
        apply lookup_insert_Some in Ho as [[<- <-]|[Hne Ho]]; simpl.
        -- split; [lia|]. intros Hin. apply Hfreed in Hin. lia.
        -- destruct (Hheld _ _ Ho Hnz). split; [lia|done].
      * intros a1 a2 o1 o2 H1 H2 Heq Hnz.
        apply lookup_insert_Some in H1 as [[<- <-]|[Hne1 H1]];
          apply lookup_insert_Some in H2 as [[<- <-]|[Hne2 H2]]; simpl in *.
        -- done.
        -- assert (m_pool o2 ≠ 0) as Hnz2 by congruence.
           destruct (Hheld _ _ H2 Hnz2). lia.
        -- destruct (Hheld _ _ H1 Hnz). lia.
        -- eauto.
    + by rewrite Hrt.
  - destruct (objs !! this) eqn:Hthis; [done|].
    unfold pool_move_ctor in Hstep.
    destruct (objs !! other) as [o|] eqn:Ho; simpl in Hstep; [|done].
    injection Hstep as <- <-.
    apply owners_inv_moved; [done| |done]. congruence.
  - unfold pool_move_assign in Hstep.
    destruct (objs !! this) as [x|] eqn:Hx; simpl in Hstep; [|done].
    destruct (objs !! other) as [o|] eqn:Ho; simpl in Hstep; [|done].
    destruct (decide (this = other)) as [->|Hne]; injection Hstep as <- <-; [done|].
    by apply owners_inv_moved.
  - destruct (objs !! this) as [o|] eqn:Ho; simpl in Hstep; [|done].
    injection Hstep as <- <-.
    destruct Hinv as [Hn Hnd Hfreed Hheld Huniq].
    destruct (decide (m_pool o = 0)) as [Hz|Hnz].
    + rewrite destroy_null by done. simpl.
      split; try done.
      * intros a x Hxa. apply lookup_delete_Some in Hxa as [_ Hxa]. eauto.
      * intros a1 a2 o1 o2 H1 H2.
        apply lookup_delete_Some in H1 as [_ H1].
        apply lookup_delete_Some in H2 as [_ H2]. eauto.
    + destruct (destroy_model o w Hnz) as [Hnext Hcalls].
      destruct (Hheld _ _ Ho Hnz) as [Hlt Hnotin].
      split; rewrite ?Hnext, ?Hcalls; try done.
      * apply NoDup_app. split; [done|]. split; [|apply NoDup_singleton].
        intros h Hh Hin. apply list_elem_of_singleton in Hin. by subst.
      * intros h Hh. apply elem_of_app in Hh as [Hh|Hh]; [eauto|].
        apply list_elem_of_singleton in Hh. by subst.
      * intros a x Hxa Hxnz. apply lookup_delete_Some in Hxa as [Hne Hxa].
        destruct (Hheld _ _ Hxa Hxnz) as [? Hx']. split; [done|].
        intros Hin. apply elem_of_app in Hin as [Hin|Hin]; [done|].
        apply list_elem_of_singleton in Hin.
        apply Hne. symmetry. eapply Huniq; eauto.
      * intros a1 a2 o1 o2 H1 H2.
        apply lookup_delete_Some in H1 as [_ H1].
        apply lookup_delete_Some in H2 as [_ H2]. eauto.
Qed.

Lemma owner_run_inv (ops : list owner_op) (objs objs' : gmap Z pool) (w w' : W) :
  owner_run ops (objs, w) = Some (objs', w') →
  owners_inv objs (runtime w) → owners_inv objs' (runtime w').
Proof.
  revert objs w. induction ops as [|op ops IH]; intros objs w Hrun Hinv;
    cbn [owner_run] in Hrun.
  - by injection Hrun as <- <-.
  - destruct (owner_step op (objs, w)) as [[objs1 w1]|] eqn:Hstep;
      cbn [mbind option_bind] in Hrun; [|done].
    eapply IH; [done|]. by eapply owner_step_inv.
Qed.

Lemma owners_inv_init (w : W) :
  0 < next_handle (runtime w) → free_calls (runtime w) = [] →
  owners_inv ∅ (runtime w).
Proof.
  intros Hn Hc. split; try done; rewrite ?Hc.
  - constructor.
  - intros h Hh. by apply elem_of_nil in Hh.
Qed.
End model_owner_facts.

(** C9: a move construction or a move assignment between two distinct
    live pool objects leaves the target with the source's handle and the
    source null, touching no other object; a self move assignment
    changes nothing; [destroy()] on a null pool returns without a call
    into the runtime; and on the reference runtime, however owning
    handles are created, moved and destructed, no handle is passed to
    [ABT_pool_free] twice. *)
Theorem pool_moves_and_teardown {R P U F PA UA : Type} `{!AbtConstants}
    `{!Native (world R P U F PA UA)} :
  (∀ this other o (s : gmap Z pool),
     s !! other = Some o → this ≠ other →
     ∃ s', pool_move_ctor this other s = Some s'
           ∧ s' !! this = Some {| m_pool := m_pool o |}
           ∧ s' !! other = Some {| m_pool := ABT_POOL_NULL |}
           ∧ (∀ x, x ≠ this → x ≠ other → s' !! x = s !! x))
  ∧ (∀ this other x o (s : gmap Z pool),
     s !! this = Some x → s !! other = Some o → this ≠ other →
     ∃ s', pool_move_assign this other s = Some s'
           ∧ s' !! this = Some {| m_pool := m_pool o |}
           ∧ s' !! other = Some {| m_pool := ABT_POOL_NULL |}
           ∧ (∀ y, y ≠ this → y ≠ other → s' !! y = s !! y))
  ∧ (∀ this x (s : gmap Z pool),
     s !! this = Some x → pool_move_assign this this s = Some s)
  ∧ (∀ self (w : world R P U F PA UA),
     m_pool self = ABT_POOL_NULL → destroy self w = (Returned self, w))
  ∧ (∀ (w0 w' : world abt P U F PA UA) ops objs',
     0 < next_handle (runtime w0) → free_calls (runtime w0) = [] →
     owner_run (abt_constants := constants) (abt_native := native) ops (∅, w0)
       = Some (objs', w') →
     NoDup (free_calls (runtime w'))).
Proof.
  split; [|split; [|split; [|split]]].
  - intros. by apply pool_move_ctor_transfers.
  - intros. by eapply pool_move_assign_transfers.
  - intros. by eapply pool_move_assign_self.
  - intros. by apply destroy_null.
  - intros w0 w' ops objs' Hn Hc Hrun.
    eapply inv_nodup, owner_run_inv; [done|]. by apply owners_inv_init.
Qed.

(** ** FIFO order of built-in pools on the reference runtime *)

Section model_fifo_facts.
Context {P U F PA UA : Type}.
Local Abbreviation W := (world abt P U F PA UA).

Lemma push_model (h : ABT_pool) (u : address) (q : list ABT_unit) (w : W) :
  queue_of h w = Some q →
  ∃ w', push {| m_pool := h |} u w = (Returned tt, w')
        ∧ queue_of h w' = Some (q ++ [u]).
Proof.
  unfold queue_of. intros Hq.
  destruct (pool_table (runtime w) !! h) as [np|] eqn:Hnp; [|done].
  injection Hq as <-.
  unfold push, TL_POOL_ASSERT. monad_unfold. simpl.
  unfold lift, pool_push. rewrite Hnp. simpl.
  eexists. split; [done|]. simpl. by rewrite lookup_insert_eq.
Qed.

Lemma pop_model_empty (h : ABT_pool) (w : W) :
  queue_of h w = Some [] →
  ∃ w', pop {| m_pool := h |} w = (Returned ABT_UNIT_NULL, w')
        ∧ queue_of h w' = Some [].
Proof.
  unfold queue_of. intros Hq.
  destruct (pool_table (runtime w) !! h) as [np|] eqn:Hnp; [|done].
  injection Hq as Hq.
  unfold pop, TL_POOL_ASSERT. monad_unfold. simpl.
  unfold lift, pool_pop. rewrite Hnp, Hq. simpl.
  eexists. split; [done|]. simpl. rewrite Hnp. simpl. by rewrite Hq.
Qed.

Lemma pop_model_cons (h : ABT_pool) (u : ABT_unit) (q : list ABT_unit) (w : W) :
  queue_of h w = Some (u :: q) →
  ∃ w', pop {| m_pool := h |} w = (Returned u, w')
        ∧ queue_of h w' = Some q.
Proof.
  unfold queue_of. intros Hq.
  destruct (pool_table (runtime w) !! h) as [np|] eqn:Hnp; [|done].
  injection Hq as Hq.
  unfold pop, TL_POOL_ASSERT. monad_unfold. simpl.
  unfold lift, pool_pop. rewrite Hnp, Hq. simpl.
  eexists. split; [done|]. simpl. by rewrite lookup_insert_eq.
Qed.

(** Whatever the interleaving, the units already in the pool followed
    by the units pushed are the units popped followed by the units
    left. *)
Lemma run_schedule_model (h : ABT_pool) (ops : list sched_op) :
  ∀ (q : list ABT_unit) (w : W),
    queue_of h w = Some q →
    Forall (λ u, u ≠ ABT_UNIT_NULL) (q ++ pushed ops) →
    ∃ res w' q',
      run_schedule {| m_pool := h |} ops w = (Returned res, w')
      ∧ queue_of h w' = Some q'
      ∧ q ++ pushed ops = filter (λ u, u ≠ ABT_UNIT_NULL) res ++ q'.
Proof.
  induction ops as [|[u|] ops IH]; intros q w Hq Hnn; cbn [run_schedule].
  - exists [], w, q. split; [done|]. split; [done|]. by rewrite app_nil_r.
  - destruct (push_model h u q w Hq) as (w1 & Hpush & Hq1).
    destruct (IH (q ++ [u]) w1 Hq1) as (res & w2 & q' & Hrun & Hq2 & Heq).
    { by rewrite <- app_assoc. }
    exists res, w2, q'. monad_unfold. rewrite Hpush, Hrun.
    split; [done|]. split; [done|]. rewrite <- Heq. by rewrite <- app_assoc.
  - destruct q as [|u q].
    + destruct (pop_model_empty h w Hq) as (w1 & Hpop & Hq1).
      destruct (IH [] w1 Hq1 Hnn) as (res & w2 & q' & Hrun & Hq2 & Heq).
      exists (ABT_UNIT_NULL :: res), w2, q'. monad_unfold. rewrite Hpop, Hrun.
      split; [done|]. split; [done|].
      rewrite filter_cons_False by (intros Hx; by apply Hx). done.
    + destruct (pop_model_cons h u q w Hq) as (w1 & Hpop & Hq1).
      apply Forall_cons in Hnn as [Hu Hnn].
      destruct (IH q w1 Hq1 Hnn) as (res & w2 & q' & Hrun & Hq2 & Heq).
      exists (u :: res), w2, q'. monad_unfold. rewrite Hpop, Hrun.
      split; [done|]. split; [done|].
      rewrite filter_cons_True by done. simpl in *. by rewrite <- Heq.
Qed.

(** [n] pops on a pool holding at least [n] units return its first [n]
    units. *)
Lemma run_pops_model (h : ABT_pool) (n : nat) :
  ∀ (q : list ABT_unit) (w : W),
    queue_of h w = Some q → (n ≤ length q)%nat →
    ∃ w', run_schedule {| m_pool := h |} (replicate n do_pop) w
            = (Returned (take n q), w')
          ∧ queue_of h w' = Some (drop n q).
Proof.
  induction n as [|n IH]; intros q w Hq Hlen; cbn [replicate run_schedule].
  - exists w. by rewrite take_0, drop_0.
  - destruct q as [|u q]; simpl in Hlen; [lia|].
    destruct (pop_model_cons h u q w Hq) as (w1 & Hpop & Hq1).
    destruct (IH q w1 Hq1) as (w2 & Hrun & Hq2); [lia|].
    exists w2. monad_unfold. by rewrite Hpop, Hrun.
Qed.

Lemma run_pushes_pops_model (h : ABT_pool) (us : list address) (n : nat) :
  ∀ (q : list ABT_unit) (w : W),
    queue_of h w = Some q → (n ≤ length (q ++ us))%nat →
    ∃ w', run_schedule {| m_pool := h |} ((do_push <$> us) ++ replicate n do_pop) w
            = (Returned (take n (q ++ us)), w')
          ∧ queue_of h w' = Some (drop n (q ++ us)).
Proof.
  induction us as [|u us IH]; intros q w Hq Hlen.
  - rewrite app_nil_r in *. by apply run_pops_model.
  - destruct (push_model h u q w Hq) as (w1 & Hpush & Hq1).
    destruct (IH (q ++ [u]) w1 Hq1) as (w2 & Hrun & Hq2).
    { by rewrite <- app_assoc. }
    exists w2. cbn [fmap list_fmap app run_schedule]. monad_unfold.
    rewrite Hpush. rewrite <- app_assoc in Hrun, Hq2. done.
Qed.

Lemma create_model_queue (a : access) (k : kind) (w w1 : W) (mp : managed pool) :
  create a k w = (Returned mp, w1) →
  queue_of (m_pool (m_managed mp)) w1 = Some [].
Proof.
  unfold create, TL_POOL_ASSERT. monad_unfold. simpl.
  unfold lift, pool_create_basic, pool_new.
  destruct (pools_left (runtime w)); simpl; [done|].
  intros [= <- <-]. unfold queue_of. simpl. by rewrite lookup_insert_eq.
Qed.

(** C8: on a built-in pool created with kind [fifo], with one producer
    pushing (non-null units) and one consumer popping in any
    interleaving, every call returns, and the units the pops return
    are, in order, the units pushed, the rest still being in the pool
    in push order (a pop on the empty pool returns the null unit); in
    particular pushing [us] and then popping as many times returns
    exactly [us] and leaves the pool empty. *)
Theorem fifo_pop_order (a : access) (w w1 : W) (mp : managed pool) :
  create a fifo w = (Returned mp, w1) →
  (∀ ops, Forall (λ u, u ≠ ABT_UNIT_NULL) (pushed ops) →
     ∃ res w2 q,
       run_schedule (m_managed mp) ops w1 = (Returned res, w2)
       ∧ queue_of (m_pool (m_managed mp)) w2 = Some q
       ∧ pushed ops = filter (λ u, u ≠ ABT_UNIT_NULL) res ++ q)
  ∧ (∀ us, ∃ w2,
       run_schedule (m_managed mp)
         ((do_push <$> us) ++ replicate (length us) do_pop) w1
         = (Returned us, w2)
       ∧ queue_of (m_pool (m_managed mp)) w2 = Some []).
Proof.
  intros Hcreate. apply create_model_queue in Hcreate.
  destruct mp as [[h]]. simpl in *. split.
  - intros ops Hnn. by apply (run_schedule_model h ops [] w1).
  - intros us.
    destruct (run_pushes_pops_model h us (length us) [] w1 Hcreate) as (w2 & Hrun & Hq);
      [done|].
    simpl in Hrun, Hq. rewrite firstn_all in Hrun. rewrite drop_all in Hq.
    by exists w2.
Qed.
End model_fifo_facts.

(** ** Reviving units on the reference runtime *)

Section model_revive_facts.
Context {P U F PA UA : Type}.
Local Abbreviation W := (world abt P U F PA UA).

Lemma rearm_joined (fn : work_fn) (arg : address) (t : Z) (tbl : gmap Z nunit)
    (u : nunit) :
  tbl !! t = Some u → nu_state u = st_joined →
  rearm fn arg t tbl = Some (<[t := Nunit st_pooled (Some (fn, arg))]> tbl).
Proof. intros Ht Hs. unfold rearm. rewrite Ht. by rewrite decide_True. Qed.

Lemma rearm_not_joined (fn : work_fn) (arg : address) (t : Z) (tbl : gmap Z nunit) :
  nu_state <$> tbl !! t ≠ Some st_joined → rearm fn arg t tbl = None.
Proof.
  intros Hs. unfold rearm. destruct (tbl !! t) as [u|]; [|done].
  rewrite decide_False; [done|]. intros Hj. apply Hs. simpl. by rewrite Hj.
Qed.

Lemma new_function_model (f : F) (w : W) (n : nat) :
  heap_left (runtime w) = S n →
  ∃ w1, new_function f w = (Returned (heap_next (runtime w)), w1)
        ∧ pool_table (runtime w1) = pool_table (runtime w)
        ∧ thread_table (runtime w1) = thread_table (runtime w)
        ∧ task_table (runtime w1) = task_table (runtime w)
        ∧ unit_objs w1 = unit_objs w
        ∧ fun_objs w1 = <[heap_next (runtime w) := f]> (fun_objs w)
        ∧ mem_log w1 =
            mem_log w ++ [Allocate default_heap (heap_next (runtime w)) 1;
                          Construct default_heap (heap_next (runtime w))].
Proof.
  intros Hleft. unfold new_function. simpl. unfold lift, heap_new.
  rewrite Hleft. simpl. eexists. split; [done|]. simpl.
  rewrite <- app_assoc. by repeat split.
Qed.

(** C7: on the reference runtime (with room on the default heap for
    the callable), [revive_thread] on a joined thread and a valid pool
    returns, the same thread is pooled again with the new callable as
    its body and is appended to the pool, and no unit is allocated (the
    unit store is unchanged and the only storage events are the
    callable's on the default heap); on a thread that is not joined it
    throws a [pool_exception] naming the runtime's invalid-thread
    status and leaves threads and pools as they were.  The same holds
    for [revive_task] and tasks. *)
Theorem revive_rearms_or_throws (self : pool) (f : F) (w : W) (n : nat) :
  heap_left (runtime w) = S n →
  let fp := heap_next (runtime w) in
  (∀ t u np,
     thread_table (runtime w) !! m_thread t = Some u →
     nu_state u = st_joined →
     pool_table (runtime w) !! m_pool self = Some np →
     ∃ w', revive_thread self t f w = (Returned t, w')
           ∧ thread_table (runtime w') =
               <[m_thread t := Nunit st_pooled (Some (forward_work_unit, fp))]>
                 (thread_table (runtime w))
           ∧ fun_objs w' !! fp = Some f
           ∧ pool_table (runtime w') =
               <[m_pool self := Npool (np_access np) (np_data np)
                                  (np_queue np ++ [m_thread t])]>
                 (pool_table (runtime w))
           ∧ unit_objs w' = unit_objs w
           ∧ mem_log w' =
               mem_log w ++ [Allocate default_heap fp 1; Construct default_heap fp])
  ∧ (∀ t,
     nu_state <$> thread_table (runtime w) !! m_thread t ≠ Some st_joined →
     ∃ args w', revive_thread self t f w = (Threw (pool_exception args), w')
                ∧ Str (abt_error_get_name ERR_INV_THREAD) ∈ args
                ∧ thread_table (runtime w') = thread_table (runtime w)
                ∧ pool_table (runtime w') = pool_table (runtime w))
  ∧ (∀ t u np,
     task_table (runtime w) !! m_task t = Some u →
     nu_state u = st_joined →
     pool_table (runtime w) !! m_pool self = Some np →
     ∃ w', revive_task self t f w = (Returned t, w')
           ∧ task_table (runtime w') =
               <[m_task t := Nunit st_pooled (Some (forward_work_unit, fp))]>
                 (task_table (runtime w))
           ∧ fun_objs w' !! fp = Some f
           ∧ pool_table (runtime w') =
               <[m_pool self := Npool (np_access np) (np_data np)
                                  (np_queue np ++ [m_task t])]>
                 (pool_table (runtime w))
           ∧ unit_objs w' = unit_objs w
           ∧ mem_log w' =
               mem_log w ++ [Allocate default_heap fp 1; Construct default_heap fp])
  ∧ (∀ t,
     nu_state <$> task_table (runtime w) !! m_task t ≠ Some st_joined →
     ∃ args w', revive_task self t f w = (Threw (pool_exception args), w')
                ∧ Str (abt_error_get_name ERR_INV_TASK) ∈ args
                ∧ task_table (runtime w') = task_table (runtime w)
                ∧ pool_table (runtime w') = pool_table (runtime w)).
Proof.
  intros Hleft fp.
  destruct (new_function_model f w n Hleft)
    as (w1 & Hnew & Hpools & Hthreads & Htasks & Hunits & Hfuns & Hlog).
  fold fp in Hnew, Hfuns, Hlog.
  split; [|split; [|split]].
  - intros [t] u np Ht Hs Hp. simpl in *.
    unfold revive_thread, TL_POOL_ASSERT. monad_unfold. rewrite Hnew. simpl.
    unfold lift, thread_revive, pool_push.
    rewrite Hthreads, Hpools, Hp, (rearm_joined _ _ _ _ u) by done. simpl.
    eexists. split; [done|]. simpl.
    rewrite Hfuns, lookup_insert_eq. by repeat split.
  - intros [t] Hs. simpl in *.
    unfold revive_thread, TL_POOL_ASSERT. monad_unfold. rewrite Hnew. simpl.
    unfold lift, thread_revive.
    rewrite Hthreads, rearm_not_joined by done. simpl.
    eexists _, _. split; [done|]. simpl. split; [set_solver|]. by split.
  - intros [t] u np Ht Hs Hp. simpl in *.
    unfold revive_task, TL_POOL_ASSERT. monad_unfold. rewrite Hnew. simpl.
    unfold lift, task_revive, pool_push.
    rewrite Htasks, Hpools, Hp, (rearm_joined _ _ _ _ u) by done. simpl.
    eexists. split; [done|]. simpl.
    rewrite Hfuns, lookup_insert_eq. by repeat split.
  - intros [t] Hs. simpl in *.
    unfold revive_task, TL_POOL_ASSERT. monad_unfold. rewrite Hnew. simpl.
    unfold lift, task_revive.
    rewrite Htasks, rearm_not_joined by done. simpl.
    eexists _, _. split; [done|]. simpl. split; [set_solver|]. by split.
Qed.
End model_revive_facts.

(** ** The theorems at concrete inputs *)

Import sample.

(** The sample worlds are what the code produces. *)
Example world_custom_created :
  create_custom world0 = (Returned (make_managed_pool 1), world_custom).
Proof. vm_compute. reflexivity. Qed.

Example world_unit_created :
  u_create_from_thread 42 world0 = (Returned 512, world_unit).
Proof. vm_compute. reflexivity. Qed.

Example create_out_of_pools :
  create priv fifo world_full =
    (Threw (pool_exception
              [Str "ABT_pool_create_basic((ABT_pool_kind)k, (ABT_pool_access)a, 0, &p)";
               Str " returned "; Str "ABT_ERR_MEM"; Str " (";
               Str "Memory allocation failure"; Str ") in ";
               Str "thallium/pool.hpp"; Str ":"; Int 319]),
     world_full).
Proof. vm_compute. reflexivity. Qed.

(** C1 as stated fails: with no pool [7] the lookup of the opaque state
    fails, and [p_remove] returns the lookup's error status, not
    [ABT_SUCCESS]. *)
Lemma p_remove_lookup_failure_not_success :
  ABT_pool_get_data 7 world0 = ((ERR_INV_POOL, 0), world0)
  ∧ ERR_INV_POOL ≠ ABT_SUCCESS
  ∧ p_remove 7 100 world0 = (Returned ERR_INV_POOL, world0)
  ∧ p_remove 7 100 world0 ≠ (Returned ABT_SUCCESS, world0).
Proof.
  split; [reflexivity|]. split; [discriminate|]. split; [reflexivity|].
  vm_compute. discriminate.
Qed.

Lemma p_remove_lookup_failure_witness :
  (ABT_pool_get_data 7 world0 = ((ERR_INV_POOL, 0), world0)
   ∧ ERR_INV_POOL ≠ ABT_SUCCESS)
  ∧ p_remove 7 100 world0 = (Returned ERR_INV_POOL, world0).
Proof.
  assert (ABT_pool_get_data 7 world0 = ((ERR_INV_POOL, 0), world0)) as Hget
    by reflexivity.
  assert (ERR_INV_POOL ≠ ABT_SUCCESS) as Hne by discriminate.
  exact (conj (conj Hget Hne)
           (p_remove_lookup_failure 7 100 world0 world0 ERR_INV_POOL 0 Hget Hne)).
Defined.



Lemma units_through_unit_allocator_witness :
  ∃ w1 w2,
    u_create_from_thread 42 world0 = (Returned 512, w1)
    ∧ u_free 512 w1 = (Returned nullptr, w2)
    ∧ mem_log w2 =
        mem_log world0 ++ [Allocate unit_arena 512 1; Construct unit_arena 512;
                           Destroy unit_arena 512; Deallocate unit_arena 512 1]
    ∧ unit_objs w2 = unit_objs world0
    ∧ pool_allocator w2 = pool_allocator world0
    ∧ runtime w2 = runtime world0
    ∧ u_free 512 w2 = (Undefined, w2).
Proof.
  exact (proj2 (proj2 (proj2 (proj2 (units_through_unit_allocator world0))))
           42 512 (Bump 513 3) eq_refl eq_refl).
Defined.

Lemma unit_handle_roundtrip_witness :
  (∀ t, ∃ w', u_create_from_thread t world0 = (Returned 512, w')
              ∧ u_get_thread 512 w' = (Returned t, w'))
  ∧ (∀ t, ∃ w', u_create_from_task t world0 = (Returned 512, w')
                ∧ u_get_task 512 w' = (Returned t, w')).
Proof.
  exact (unit_handle_roundtrip world0 512 (Bump 513 3)
           (λ th, eq_refl) (λ tk, eq_refl) eq_refl).
Defined.

Lemma adapter_forwards_witness :
  (ABT_pool_get_data 1 world_custom = ((ABT_SUCCESS, 256), world_custom)
   ∧ pool_objs world_custom !! 256 = Some (My_pool []))
  ∧ p_get_size 1 world_custom = (Returned 0%N, world_custom)
  ∧ (∀ u, p_push 1 u world_custom =
          (Returned tt, forwarded 256 (My_pool [u]) (mark true u ∅) world_custom))
  ∧ p_pop 1 world_custom =
      (Returned nullptr, forwarded 256 (My_pool []) ∅ world_custom).
Proof.
  assert (ABT_pool_get_data 1 world_custom = ((ABT_SUCCESS, 256), world_custom))
    as Hget by reflexivity.
  assert (pool_objs world_custom !! 256 = Some (My_pool [])) as Hobj by reflexivity.
  exact (conj (conj Hget Hobj)
           (adapter_forwards 1 world_custom world_custom 256 (My_pool []) Hget Hobj)).
Defined.

Lemma create_custom_outcome_witness :
  create_custom world0 = (Returned (make_managed_pool 1), world_custom)
  ∧ p_init 9 ABT_POOL_CONFIG_NULL world0 =
      (Returned ERR_INV_POOL,
       World runtime0 (Bump 257 3) (Bump 512 4) {[ 256 := My_pool [] ]} ∅ ∅
             [Allocate pool_arena 256 1; Construct pool_arena 256]).
Proof.
  destruct (create_custom_outcome world0) as (_ & Hcreate & Hinit).
  split.
  - exact (proj1 (Hcreate 0 1 world_custom eq_refl) eq_refl).
  - exact (Hinit 9 ABT_POOL_CONFIG_NULL 256 (Bump 257 3) eq_refl).
Defined.


Lemma revive_rearms_or_throws_witness :
  (∃ w', revive_thread {| m_pool := 1 |} {| m_thread := 5 |} 77%nat world_joined
           = (Returned {| m_thread := 5 |}, w')
         ∧ thread_table (runtime w') !! 5
             = Some (Nunit st_pooled (Some (forward_work_unit, 4096)))
         ∧ fun_objs w' !! 4096 = Some 77%nat
         ∧ queue_of 1 w' = Some [5]
         ∧ unit_objs w' = ∅
         ∧ mem_log w' = [Allocate default_heap 4096 1; Construct default_heap 4096])
  ∧ (∃ args w', revive_thread {| m_pool := 1 |} {| m_thread := 7 |} 77%nat world_joined
                  = (Threw (pool_exception args), w')
                ∧ Str "ABT_ERR_INV_THREAD" ∈ args).
Proof.
  destruct (revive_rearms_or_throws {| m_pool := 1 |} 77%nat world_joined 7 eq_refl)
    as (Hok & Hthrow & _ & _).
  split.
  - destruct (Hok {| m_thread := 5 |} (Nunit st_joined None) (Npool 4 0 [])
                eq_refl eq_refl eq_refl)
      as (w' & Hrun & Hthreads & Hfun & Hpools & Hunits & Hlog).
    exists w'. split; [exact Hrun|].
    split; [rewrite Hthreads; reflexivity|].
    split; [exact Hfun|].
    split; [unfold queue_of; rewrite Hpools; reflexivity|].
    split; [exact Hunits|exact Hlog].
  - destruct (Hthrow {| m_thread := 7 |}) as (args & w' & Hrun & Hname & _).
    + vm_compute. discriminate.
    + exists args, w'. split; [exact Hrun|exact Hname].
Defined.

Lemma fifo_pop_order_witness :
  create mpmc fifo world0 = (Returned (make_managed_pool 1), (create mpmc fifo world0).2)
  ∧ ∃ w2,
      run_schedule {| m_pool := 1 |}
        ((do_push <$> [11; 12; 13]) ++ replicate 3 do_pop) (create mpmc fifo world0).2
        = (Returned [11; 12; 13], w2)
      ∧ queue_of 1 w2 = Some [].
Proof.
  assert (create mpmc fifo world0
            = (Returned (make_managed_pool 1), (create mpmc fifo world0).2))
    as Hcreate by reflexivity.
  exact (conj Hcreate
           (proj2 (fifo_pop_order mpmc world0 _ (make_managed_pool 1) Hcreate)
              [11; 12; 13])).
Defined.

Lemma pool_moves_and_teardown_witness :
  ∃ objs' w',
    owner_run
      [op_create 10 priv fifo; op_move_ctor 11 10; op_create 12 mpmc fifo_wait;
       op_move_assign 12 11; op_move_assign 12 12; op_destruct 10;
       op_destruct 11; op_destruct 12]
      (∅, world0) = Some (objs', w')
    ∧ free_calls (runtime w') = [1]
    ∧ NoDup (free_calls (runtime w')).
Proof.
  eexists _, _. split; [vm_compute; reflexivity|]. split; [reflexivity|].
  refine (proj2 (proj2 (proj2 (proj2
            (pool_moves_and_teardown (R := abt) (P := my_pool) (U := my_unit)
               (F := nat) (PA := bump) (UA := bump)))))
            world0 _
            [op_create 10 priv fifo; op_move_ctor 11 10; op_create 12 mpmc fifo_wait;
             op_move_assign 12 11; op_move_assign 12 12; op_destruct 10;
             op_destruct 11; op_destruct 12] _ _ _ _).
  - vm_compute. reflexivity.
  - reflexivity.
  - vm_compute. reflexivity.
Defined.

(** * Further properties *)

(** ** Sequences of adapter calls *)

Section adapter_run_facts.
Context {R P U F PA UA : Type}.
Context `{!AbtConstants, !UnitModel U, !PoolModel P U}.
Context `{!Allocator PA, !Allocator UA}.
Local Abbreviation W := (world R P U F PA UA).
Context `{!Native W}.

Lemma forwarded_same (data : address) (impl : P) (w : W) :
  pool_objs w !! data = Some impl → forwarded data impl (unit_objs w) w = w.
Proof.
  intros Hobj. destruct w. unfold forwarded, set_pool_objs, set_unit_objs. simpl in *.
  by rewrite insert_id.
Qed.

Lemma forwarded_twice (data : address) (i1 i2 : P) (u1 u2 : gmap Z U) (w : W) :
  forwarded data i2 u2 (forwarded data i1 u1 w) = forwarded data i2 u2 w.
Proof.
  unfold forwarded, set_pool_objs, set_unit_objs. simpl.
  by rewrite insert_insert_eq.
Qed.

Lemma p_remove_forwards (p : ABT_pool) (u : ABT_unit) (w w' : W) (data : address)
    (impl : P) :
  ABT_pool_get_data p w = ((ABT_SUCCESS, data), w') →
  pool_objs w' !! data = Some impl →
  p_remove p u w =
    (Returned ABT_SUCCESS,
     forwarded data (P_remove u impl (unit_objs w')).1
               (P_remove u impl (unit_objs w')).2 w').
Proof.
  intros Hget Hobj. unfold p_remove, deref_pool. monad_unfold.
  rewrite Hget. simpl. rewrite decide_False by (intros Hn; by apply Hn).
  rewrite Hobj. by destruct (P_remove u impl (unit_objs w')).
Qed.

(** With the lookup of the pool's opaque state answering [data] on every
    world of this runtime state, one call through the adapter is one step
    of the [P] object at [data]. *)
Lemma run_adapter_op_step (p : ABT_pool) (data : address) (op : adapter_op)
    (impl : P) (w : W) :
  ABT_pool_get_data p w = ((ABT_SUCCESS, data), w) →
  pool_objs w !! data = Some impl →
  run_adapter_op p op w =
    (Returned (P_step op (impl, unit_objs w)).1,
     forwarded data (P_step op (impl, unit_objs w)).2.1
               (P_step op (impl, unit_objs w)).2.2 w).
Proof.
  intros Hget Hobj.
  destruct op as [u| |u|]; unfold run_adapter_op; monad_unfold; simpl.
  - unfold p_push, TL_POOL_ASSERT, deref_pool. monad_unfold.
    rewrite Hget. simpl. rewrite decide_True by reflexivity.
    rewrite Hobj. by destruct (P_push u impl (unit_objs w)).
  - unfold p_pop, TL_POOL_ASSERT, deref_pool. monad_unfold.
    rewrite Hget. simpl. rewrite decide_True by reflexivity.
    rewrite Hobj. by destruct (P_pop impl (unit_objs w)) as [[??]?].
  - rewrite (p_remove_forwards p u w w data impl Hget Hobj).
    by destruct (P_remove u impl (unit_objs w)).
  - unfold p_get_size, TL_POOL_ASSERT, deref_pool. monad_unfold.
    rewrite Hget. simpl. rewrite decide_True by reflexivity.
    rewrite Hobj. by rewrite forwarded_same.
Qed.

(** X1: as long as the lookup of the pool's opaque state keeps answering
    [data] (on every world with this runtime state), any sequence of
    push, pop, remove and get-size calls through the adapter returns what
    the same sequence of [P::push], [P::pop], [P::remove] and
    [P::get_size] returns on the [P] object at [data], with [ABT_SUCCESS]
    for every remove, and leaves that object and the units as the
    sequence left them: each call sees the effects of the ones before it
    and the adapter keeps no state of its own. *)
Theorem adapter_simulates_pool (p : ABT_pool) (data : address)
    (ops : list adapter_op) (impl : P) (w : W) :
  (∀ w', runtime w' = runtime w →
         ABT_pool_get_data p w' = ((ABT_SUCCESS, data), w')) →
  pool_objs w !! data = Some impl →
  run_adapter p ops w =
    (Returned (P_run ops (impl, unit_objs w)).1,
     forwarded data (P_run ops (impl, unit_objs w)).2.1
               (P_run ops (impl, unit_objs w)).2.2 w).
Proof.
  revert impl w. induction ops as [|op ops IH]; intros impl w Hget Hobj.
  - simpl. monad_unfold. by rewrite forwarded_same.
  - cbn [run_adapter P_run]. monad_unfold.
    rewrite (run_adapter_op_step p data op impl w (Hget w eq_refl) Hobj).
    destruct (P_step op (impl, unit_objs w)) as [r [impl1 units1]] eqn:Hstep.
    cbn [fst snd].
    assert (pool_objs (forwarded data impl1 units1 w) !! data = Some impl1) as Hobj1.
    { unfold forwarded. simpl. apply lookup_insert_eq. }
    rewrite (IH impl1 (forwarded data impl1 units1 w));
      [|intros w' Hrt; apply Hget; by rewrite Hrt|done].
    change (unit_objs (forwarded data impl1 units1 w)) with units1.
    destruct (P_run ops (impl1, units1)) as [rs [impl2 units2]].
    cbn [fst snd]. by rewrite forwarded_twice.
Qed.

(** X2: when the lookup of the pool's opaque state fails with status
    [r], [p_get_size], [p_push] and [p_pop] throw the [pool_exception] of
    the failed [ABT_pool_get_data] call and [p_free] returns [r]; in all
    four the world is the one the lookup left: no [P] method runs, and
    [p_free] destroys and deallocates nothing. *)
Theorem adapter_lookup_failure (p : ABT_pool) (w w' : W) (r : status)
    (data : address) :
  ABT_pool_get_data p w = ((r, data), w') →
  r ≠ ABT_SUCCESS →
  p_get_size p w =
    (Threw (TL_POOL_EXCEPTION "ABT_pool_get_data(p, &data)" 132 r), w')
  ∧ (∀ u, p_push p u w =
          (Threw (TL_POOL_EXCEPTION "ABT_pool_get_data(p, &data)" 139 r), w'))
  ∧ p_pop p w =
      (Threw (TL_POOL_EXCEPTION "ABT_pool_get_data(p, &data)" 155 r), w')
  ∧ p_free p w = (Returned r, w').
Proof.
  intros Hget Hr. repeat split; [| intros u | |].
  - unfold p_get_size, TL_POOL_ASSERT. monad_unfold. rewrite Hget. simpl.
    by rewrite decide_False.
  - unfold p_push, TL_POOL_ASSERT. monad_unfold. rewrite Hget. simpl.
    by rewrite decide_False.
  - unfold p_pop, TL_POOL_ASSERT. monad_unfold. rewrite Hget. simpl.
    by rewrite decide_False.
  - unfold p_free. monad_unfold. rewrite Hget. simpl.
    by rewrite decide_True.
Qed.

(** X3: [p_init] followed by [p_free] on the same pool is balanced.  If
    the pool allocator provides storage at a free address [impl], and the
    runtime then answers the lookup with [impl] and has left the [P]
    objects, the pool allocator and the log alone, then [p_init] returns
    the status of the registration, [p_free] returns [ABT_SUCCESS], the
    store of [P] objects is back to what it was before [p_init], the log
    has gained one allocate, construct, destroy and deallocate through
    the pool allocator, and the storage was handed back to it. *)
Theorem p_init_p_free_balanced (p : ABT_pool) (cfg : ABT_pool_config)
    (w w2 w3 : W) (impl : address) (a : PA) (r : status) :
  allocate 1 (pool_allocator w) = Some (impl, a) →
  pool_objs w !! impl = None →
  ABT_pool_set_data p impl
    (World (runtime w) a (unit_allocator w)
           (<[impl := P_default]> (pool_objs w)) (unit_objs w) (fun_objs w)
           (mem_log w ++ [Allocate pool_arena impl 1; Construct pool_arena impl]))
    = (r, w2) →
  ABT_pool_get_data p w2 = ((ABT_SUCCESS, impl), w3) →
  pool_objs w3 = <[impl := P_default]> (pool_objs w) →
  pool_allocator w3 = a →
  mem_log w3 = mem_log w ++ [Allocate pool_arena impl 1; Construct pool_arena impl] →
  p_init p cfg w = (Returned r, w2)
  ∧ ∃ w4, p_free p w2 = (Returned ABT_SUCCESS, w4)
          ∧ pool_objs w4 = pool_objs w
          ∧ pool_allocator w4 = deallocate impl 1 a
          ∧ mem_log w4 =
              mem_log w ++ [Allocate pool_arena impl 1; Construct pool_arena impl;
                            Destroy pool_arena impl; Deallocate pool_arena impl 1]
          ∧ unit_objs w4 = unit_objs w3
          ∧ runtime w4 = runtime w3.
Proof.
  intros Ha Hfresh Hset Hget Hobjs Halloc Hlog. split.
  - unfold p_init, pool_allocate, pool_construct. monad_unfold. rewrite Ha.
    unfold log_event, set_pool_objs, set_pool_allocator. simpl.
    rewrite <- app_assoc. simpl. by rewrite Hset.
  - unfold p_free, pool_destroy_obj, pool_deallocate. monad_unfold.
    rewrite Hget. simpl. rewrite decide_False by (intros Hn; by apply Hn).
    rewrite Hobjs, lookup_insert_eq. eexists. split; [done|]. simpl.
    rewrite Halloc, Hlog, delete_insert_id by done.
    rewrite <- !app_assoc. by repeat split.
Qed.
End adapter_run_facts.

(** ** Unit queries *)

Section unit_query_facts.
Context {R P U F PA UA : Type}.
Context `{!AbtConstants, !UnitModel U}.
Context `{!Allocator UA}.
Local Abbreviation W := (world R P U F PA UA).

Lemma u_get_type_answers :
  answers (R := R) (P := P) (F := F) (PA := PA) (UA := UA) u_get_type (λ v, ABT_unit_type_of (U_get_type v)).
Proof.
  intros u w. unfold u_get_type, deref_unit. monad_unfold.
  by destruct (unit_objs w !! u).
Qed.

Lemma u_get_thread_answers :
  answers (R := R) (P := P) (F := F) (PA := PA) (UA := UA) u_get_thread (λ v, thread_native_handle (U_get_thread v)).
Proof.
  intros u w. unfold u_get_thread, deref_unit. monad_unfold.
  by destruct (unit_objs w !! u).
Qed.

Lemma u_get_task_answers :
  answers (R := R) (P := P) (F := F) (PA := PA) (UA := UA) u_get_task (λ v, task_native_handle (U_get_task v)).
Proof.
  intros u w. unfold u_get_task, deref_unit. monad_unfold.
  by destruct (unit_objs w !! u).
Qed.

Lemma u_is_in_pool_answers :
  answers (R := R) (P := P) (F := F) (PA := PA) (UA := UA) u_is_in_pool (λ v, Z.b2z (U_is_in_pool v)).
Proof.
  intros u w. unfold u_is_in_pool, deref_unit. monad_unfold.
  by destruct (unit_objs w !! u).
Qed.

Lemma answers_read_only {A} (q : ABT_unit → M W A) (g : U → A) (u : ABT_unit) (w : W) :
  answers q g → (q u w).2 = w.
Proof. intros Hq. rewrite Hq. by destruct (unit_objs w !! u). Qed.

Lemma answers_same_unit {A} (q : ABT_unit → M W A) (g : U → A) (u : ABT_unit)
    (w w' : W) :
  answers q g → unit_objs w' !! u = unit_objs w !! u → (q u w').1 = (q u w).1.
Proof.
  intros Hq Heq. rewrite !Hq, Heq. by destruct (unit_objs w !! u).
Qed.

Lemma answers_dead {A} (q : ABT_unit → M W A) (g : U → A) (u : ABT_unit) (w : W) :
  answers q g → unit_objs w !! u = None → (q u w).1 = Undefined.
Proof. intros Hq Hu. by rewrite Hq, Hu. Qed.

Lemma u_free_returned (u : ABT_unit) (w w' : W) (u' : ABT_unit) :
  u_free u w = (Returned u', w') → unit_objs w' = delete u (unit_objs w).
Proof.
  destruct (unit_objs w !! u) as [v|] eqn:Hu.
  - rewrite (u_free_live _ v) by done. by intros [= <- <-].
  - rewrite u_free_dead by done. done.
Qed.

Lemma unit_create_returned (v : U) (w w' : W) (uu : address) :
  (uu' ← unit_allocate 1; unit_construct uu' v;; mret uu') w = (Returned uu, w') →
  unit_objs w' = <[uu := v]> (unit_objs w).
Proof.
  destruct (allocate 1 (unit_allocator w)) as [[uu0 a]|] eqn:Ha.
  - rewrite (unit_created uu0 a) by done. by intros [= <- <-].
  - rewrite unit_not_created by done. done.
Qed.

(** X4: the four unit queries ([u_get_type], [u_get_thread],
    [u_get_task], [u_is_in_pool]) never change the world; after [u_free]
    of a unit every query on its handle is undefined, while the queries
    on any other handle answer as before; and creating a unit from a
    thread or a task changes no answer on any handle but the new one. *)
Theorem unit_queries_frame (u : ABT_unit) (w : W) :
  ((u_get_type u w).2 = w ∧ (u_get_thread u w).2 = w
   ∧ (u_get_task u w).2 = w ∧ (u_is_in_pool u w).2 = w)
  ∧ (∀ s w', u_free u w = (Returned s, w') →
       ((u_get_type u w').1 = Undefined ∧ (u_get_thread u w').1 = Undefined
        ∧ (u_get_task u w').1 = Undefined ∧ (u_is_in_pool u w').1 = Undefined)
       ∧ ∀ u', u' ≠ u →
           (u_get_type u' w').1 = (u_get_type u' w).1
           ∧ (u_get_thread u' w').1 = (u_get_thread u' w).1
           ∧ (u_get_task u' w').1 = (u_get_task u' w).1
           ∧ (u_is_in_pool u' w').1 = (u_is_in_pool u' w).1)
  ∧ (∀ t uu w',
       u_create_from_thread t w = (Returned uu, w')
       ∨ u_create_from_task t w = (Returned uu, w') →
       ∀ u', u' ≠ uu →
         (u_get_type u' w').1 = (u_get_type u' w).1
         ∧ (u_get_thread u' w').1 = (u_get_thread u' w).1
         ∧ (u_get_task u' w').1 = (u_get_task u' w).1
         ∧ (u_is_in_pool u' w').1 = (u_is_in_pool u' w).1).
Proof.
  split; [|split].
  - repeat split; eapply answers_read_only;
      eauto using u_get_type_answers, u_get_thread_answers, u_get_task_answers,
        u_is_in_pool_answers.
  - intros s w' Hfree. apply u_free_returned in Hfree. split.
    + assert (unit_objs w' !! u = None) as Hdead
        by (rewrite Hfree; apply lookup_delete_eq).
      repeat split; eapply answers_dead;
        eauto using u_get_type_answers, u_get_thread_answers, u_get_task_answers,
          u_is_in_pool_answers.
    + intros u' Hne.
      assert (unit_objs w' !! u' = unit_objs w !! u') as Hsame
        by (rewrite Hfree; by apply lookup_delete_ne).
      repeat split; eapply answers_same_unit;
        eauto using u_get_type_answers, u_get_thread_answers, u_get_task_answers,
          u_is_in_pool_answers.
  - intros t uu w' Hcreate u' Hne.
    assert (unit_objs w' !! u' = unit_objs w !! u') as Hsame.
    { destruct Hcreate as [Hc|Hc]; apply unit_create_returned in Hc;
        rewrite Hc; by apply lookup_insert_ne. }
    repeat split; eapply answers_same_unit;
      eauto using u_get_type_answers, u_get_thread_answers, u_get_task_answers,
        u_is_in_pool_answers.
Qed.

(** X5: for a unit type whose constructors set the tag ([get_type()] is
    thread for a unit built from a thread, task for one built from a
    task), the adapter reports [ABT_UNIT_TYPE_THREAD] for a unit it
    created from a thread handle and [ABT_UNIT_TYPE_TASK] for one it
    created from a task handle. *)
Theorem unit_type_roundtrip (w : W) (uu : address) (a : UA) :
  (∀ th, U_get_type (U_from_thread th) = ut_thread) →
  (∀ tk, U_get_type (U_from_task tk) = ut_task) →
  allocate 1 (unit_allocator w) = Some (uu, a) →
  (∀ t, ∃ w', u_create_from_thread t w = (Returned uu, w')
              ∧ u_get_type uu w' = (Returned ABT_UNIT_TYPE_THREAD, w'))
  ∧ (∀ t, ∃ w', u_create_from_task t w = (Returned uu, w')
                ∧ u_get_type uu w' = (Returned ABT_UNIT_TYPE_TASK, w')).
Proof.
  intros Hth Htk Ha. split; intros t; eexists.
  - split; [by apply unit_created|].
    rewrite u_get_type_answers. simpl. rewrite lookup_insert_eq. by rewrite Hth.
  - split; [by apply unit_created|].
    rewrite u_get_type_answers. simpl. rewrite lookup_insert_eq. by rewrite Htk.
Qed.
End unit_query_facts.

(** ** Callables: allocation, run and release *)

Section callable_facts.
Context {R P U F PA UA : Type}.
Context `{!AbtConstants}.
Local Abbreviation W := (world R P U F PA UA).
Context `{!Native W, !Callable F W}.

Lemma new_function_returned (f : F) (w w0 : W) (fp : address) :
  new_function f w = (Returned fp, w0) →
  ∃ w1, operator_new w = (Some fp, w1)
        ∧ w0 = log_event (Construct default_heap fp)
                 (set_fun_objs (<[fp := f]> (fun_objs w1))
                    (log_event (Allocate default_heap fp 1) w1))
        ∧ fun_objs w0 !! fp = Some f.
Proof.
  unfold new_function. destruct (operator_new w) as [[p|] w1]; [|done].
  intros [= -> <-]. exists w1. split; [done|]. split; [done|].
  simpl. apply lookup_insert_eq.
Qed.

Lemma delete_function_live (fp : address) (f : F) (w : W) :
  fun_objs w !! fp = Some f →
  delete_function fp w =
    (Returned tt,
     log_event (Deallocate default_heap fp 1)
       (operator_delete fp
          (log_event (Destroy default_heap fp)
             (set_fun_objs (delete fp (fun_objs w)) w))).2).
Proof. intros Hf. unfold delete_function. by rewrite Hf. Qed.

(** X6: the callable allocated by [new std::function<void(void)>(f)]
    (as [make_task], [make_thread], [revive_thread] and [revive_task]
    do) is the one [forward_work_unit] calls.  When the call returns and
    the function object is still live, [forward_work_unit] destroys it
    and hands its storage to [operator delete], once; when the call
    throws, the exception leaves [forward_work_unit] and the function
    object is neither destroyed nor deallocated; when the call itself
    ended the object's life, the [delete] is undefined. *)
Theorem forward_work_unit_lifetime (f : F) (w w0 : W) (fp : address) :
  new_function f w = (Returned fp, w0) →
  (∀ w1 f1, invoke f w0 = (Returned tt, w1) → fun_objs w1 !! fp = Some f1 →
     run_forward_work_unit fp w0 =
       (Returned tt,
        log_event (Deallocate default_heap fp 1)
          (operator_delete fp
             (log_event (Destroy default_heap fp)
                (set_fun_objs (delete fp (fun_objs w1)) w1))).2))
  ∧ (∀ e w1, invoke f w0 = (Threw e, w1) →
       run_forward_work_unit fp w0 = (Threw e, w1))
  ∧ (∀ w1, invoke f w0 = (Returned tt, w1) → fun_objs w1 !! fp = None →
       run_forward_work_unit fp w0 = (Undefined, w1)).
Proof.
  intros Hnew. apply new_function_returned in Hnew as (w1 & _ & _ & Hf).
  unfold run_forward_work_unit, deref_fun. monad_unfold. rewrite Hf.
  split; [|split].
  - intros w2 f1 Hinv Hlive. rewrite Hinv. by apply (delete_function_live fp f1).
  - intros e w2 Hinv. by rewrite Hinv.
  - intros w2 Hinv Hdead. rewrite Hinv. unfold delete_function. by rewrite Hdead.
Qed.

(** X7: [revive_thread] and [revive_task] never release the callable
    they allocate.  When [operator new] throws, [std::bad_alloc] leaves
    the function and the runtime's revive is not called; otherwise the
    revive is called once on the world holding the new function object,
    and whether it succeeds (the function returns the handle the runtime
    left) or fails (the function throws the [pool_exception] of the
    call), the world is the one that call left. *)
Theorem revive_paths (self : pool) (f : F) (w : W) :
  (∀ w1, operator_new w = (None, w1) →
     (∀ t, revive_thread self t f w = (Threw bad_alloc, w1))
     ∧ (∀ t, revive_task self t f w = (Threw bad_alloc, w1)))
  ∧ (∀ fp w1, operator_new w = (Some fp, w1) →
     let w0 := log_event (Construct default_heap fp)
                 (set_fun_objs (<[fp := f]> (fun_objs w1))
                    (log_event (Allocate default_heap fp 1) w1)) in
     (∀ t r h w2,
        ABT_thread_revive (m_pool self) forward_work_unit fp (m_thread t) w0
          = ((r, h), w2) →
        (r = ABT_SUCCESS → revive_thread self t f w = (Returned {| m_thread := h |}, w2))
        ∧ (r ≠ ABT_SUCCESS →
           revive_thread self t f w =
             (Threw (TL_POOL_EXCEPTION
                       "ABT_thread_revive(m_pool, forward_work_unit, reinterpret_cast<void*>(fp), &(t.m_thread))"
                       630 r), w2)))
     ∧ (∀ t r h w2,
        ABT_task_revive (m_pool self) forward_work_unit fp (m_task t) w0
          = ((r, h), w2) →
        (r = ABT_SUCCESS → revive_task self t f w = (Returned {| m_task := h |}, w2))
        ∧ (r ≠ ABT_SUCCESS →
           revive_task self t f w =
             (Threw (TL_POOL_EXCEPTION
                       "ABT_task_revive(m_pool, forward_work_unit, reinterpret_cast<void*>(fp), &(t.m_task))"
                       637 r), w2)))).
Proof.
  split.
  - intros w1 Hnew. split; intros t.
    + unfold revive_thread, new_function. monad_unfold. by rewrite Hnew.
    + unfold revive_task, new_function. monad_unfold. by rewrite Hnew.
  - intros fp w1 Hnew w0. split; intros t r h w2 Hcall; split.
    + intros ->. unfold revive_thread, new_function, TL_POOL_ASSERT. monad_unfold.
      rewrite Hnew. fold w0. rewrite Hcall. simpl. by rewrite decide_True.
    + intros Hr. unfold revive_thread, new_function, TL_POOL_ASSERT. monad_unfold.
      rewrite Hnew. fold w0. rewrite Hcall. simpl. by rewrite decide_False.
    + intros ->. unfold revive_task, new_function, TL_POOL_ASSERT. monad_unfold.
      rewrite Hnew. fold w0. rewrite Hcall. simpl. by rewrite decide_True.
    + intros Hr. unfold revive_task, new_function, TL_POOL_ASSERT. monad_unfold.
      rewrite Hnew. fold w0. rewrite Hcall. simpl. by rewrite decide_False.
Qed.
End callable_facts.

(** ** Owners and native pools on the reference runtime *)

Section model_owner_more_facts.
Context {P U F PA UA : Type}.
Local Abbreviation W := (world abt P U F PA UA).

Lemma create_model_table (a : access) (k : kind) (w : W) :
  (∃ h, (create a k w).1 = Returned (make_managed_pool h)
        ∧ h = next_handle (runtime w)
        ∧ is_Some (pool_table (runtime (create a k w).2) !! h)
        ∧ ∀ x, is_Some (pool_table (runtime w) !! x) →
               is_Some (pool_table (runtime (create a k w).2) !! x))
  ∨ ((∃ e, (create a k w).1 = Threw e)
     ∧ runtime (create a k w).2 = runtime w).
Proof.
  unfold create, TL_POOL_ASSERT. monad_unfold. simpl.
  unfold lift, pool_create_basic, pool_new.
  destruct (pools_left (runtime w)) as [|n]; simpl.
  - right. split; [by eexists|done].
  - left. eexists. split; [done|]. split; [done|]. split.
    + rewrite lookup_insert_eq. by eexists.
    + intros x Hx. rewrite lookup_insert. by case_decide.
Qed.

Lemma destroy_model_table (o : pool) (w : W) :
  m_pool o ≠ 0 →
  pool_table (runtime (destroy o w).2) = delete (m_pool o) (pool_table (runtime w)).
Proof.
  intros Hn. rewrite destroy_live by done. simpl.
  unfold lift, pool_free. simpl.
  by destruct (pool_table (runtime w) !! m_pool o).
Qed.

Lemma owner_step_alive (op : owner_op) (objs objs' : gmap Z pool) (w w' : W) :
  owner_step op (objs, w) = Some (objs', w') →
  owners_inv objs (runtime w) → owners_alive objs (runtime w) →
  owners_alive objs' (runtime w').
Proof.
  intros Hstep Hinv Halive.
  destruct op as [this a k|this other|this other|this]; simpl in Hstep.
  - destruct (objs !! this) eqn:Hthis; [done|].
    destruct (create_model_table a k w) as [(h & Hres & _ & Hnew & Hkeep)|([e He] & Hrt)];
      destruct (create a k w) as [res w1]; simpl in *; subst res;
      injection Hstep as <- <-.
    + intros x o Ho Hnz.
      apply lookup_insert_Some in Ho as [[<- <-]|[Hne Ho]]; [done|].
      apply Hkeep. by eapply Halive.
    + rewrite Hrt. done.
  - destruct (objs !! this) eqn:Hthis; [done|].
    unfold pool_move_ctor in Hstep.
    destruct (objs !! other) as [o|] eqn:Ho; simpl in Hstep; [|done].
    injection Hstep as <- <-. intros x y Hy Hnz.
    apply lookup_insert_Some in Hy as [[<- <-]|[Hne Hy]]; [done|].
    apply lookup_insert_Some in Hy as [[<- <-]|[Hne' Hy]]; simpl in *;
      by eapply Halive.
  - unfold pool_move_assign in Hstep.
    destruct (objs !! this) as [x|] eqn:Hx; simpl in Hstep; [|done].
    destruct (objs !! other) as [o|] eqn:Ho; simpl in Hstep; [|done].
    destruct (decide (this = other)) as [->|Hne]; injection Hstep as <- <-; [done|].
    intros z y Hy Hnz.
    apply lookup_insert_Some in Hy as [[<- <-]|[Hne1 Hy]]; [done|].
    apply lookup_insert_Some in Hy as [[<- <-]|[Hne2 Hy]]; simpl in *;
      by eapply Halive.
  - destruct (objs !! this) as [o|] eqn:Ho; simpl in Hstep; [|done].
    injection Hstep as <- <-.
    destruct (decide (m_pool o = 0)) as [Hz|Hnz].
    + rewrite destroy_null by done. simpl.
      intros x y Hy. apply lookup_delete_Some in Hy as [_ Hy]. by eapply Halive.
    + intros x y Hy Hynz. apply lookup_delete_Some in Hy as [Hne Hy].
      rewrite destroy_model_table by done.
      rewrite lookup_delete_ne; [by eapply Halive|].
      intros Heq. apply Hne. symmetry. by eapply (inv_unique _ _ Hinv).
Qed.

Lemma owner_run_alive (ops : list owner_op) (objs objs' : gmap Z pool) (w w' : W) :
  owner_run ops (objs, w) = Some (objs', w') →
  owners_inv objs (runtime w) → owners_alive objs (runtime w) →
  owners_inv objs' (runtime w') ∧ owners_alive objs' (runtime w').
Proof.
  revert objs w. induction ops as [|op ops IH]; intros objs w Hrun Hinv Halive;
    cbn [owner_run] in Hrun.
  - by injection Hrun as <- <-.
  - destruct (owner_step op (objs, w)) as [[objs1 w1]|] eqn:Hstep;
      cbn [mbind option_bind] in Hrun; [|done].
    eapply IH; [done| |].
    + by eapply owner_step_inv.
    + by eapply owner_step_alive.
Qed.

(** X8: on the reference runtime, however owning handles are created,
    moved and destructed, a non-null handle held by a live owner names a
    pool that still exists and was never passed to [ABT_pool_free], and
    no two live owners hold the same non-null handle. *)
Theorem owners_never_dangle (w0 w' : W) (ops : list owner_op) (objs' : gmap Z pool) :
  0 < next_handle (runtime w0) → free_calls (runtime w0) = [] →
  owner_run ops (∅, w0) = Some (objs', w') →
  (∀ a o, objs' !! a = Some o → m_pool o ≠ ABT_POOL_NULL →
     is_Some (pool_table (runtime w') !! m_pool o)
     ∧ m_pool o ∉ free_calls (runtime w'))
  ∧ (∀ a1 a2 o1 o2, objs' !! a1 = Some o1 → objs' !! a2 = Some o2 →
       m_pool o1 = m_pool o2 → m_pool o1 ≠ ABT_POOL_NULL → a1 = a2).
Proof.
  intros Hn Hc Hrun.
  destruct (owner_run_alive ops ∅ objs' w0 w' Hrun) as [Hinv Halive].
  { by apply owners_inv_init. }
  { intros a o Ho. by rewrite lookup_empty in Ho. }
  split.
  - intros a o Ho Hnz. split; [by eapply Halive|].
    by eapply (inv_held _ _ Hinv).
  - intros a1 a2 o1 o2 H1 H2 Heq Hnz. by eapply (inv_unique _ _ Hinv).
Qed.

Lemma owner_step_orphaned (h : ABT_pool) (op : owner_op) (objs objs' : gmap Z pool)
    (w w' : W) :
  owner_step op (objs, w) = Some (objs', w') →
  orphaned h objs (runtime w) → orphaned h objs' (runtime w').
Proof.
  intros Hstep (Hnz & Hlt & Hlive & Hfree & Hnone).
  destruct op as [this a k|this other|this other|this]; simpl in Hstep.
  - destruct (objs !! this) eqn:Hthis; [done|].
    destruct (create_model a k w) as [(n & _ & Hres & Hnext & Hcalls)|(_ & [e He] & Hrt)];
      destruct (create_model_table a k w) as [(h' & Hres' & Hh' & _ & Hkeep)|([e' He'] & Hrt')];
      destruct (create a k w) as [res w1]; simpl in *; subst res; try done;
      injection Hstep as <- <-.
    + injection Hres' as <-.
      split; [done|]. rewrite Hnext, Hcalls.
      split; [lia|]. split; [by apply Hkeep|]. split; [done|].
      intros x o Ho. apply lookup_insert_Some in Ho as [[<- <-]|[Hne Ho]]; simpl.
      * lia.
      * by eapply Hnone.
    + rewrite Hrt. by repeat split.
  - destruct (objs !! this) eqn:Hthis; [done|].
    unfold pool_move_ctor in Hstep.
    destruct (objs !! other) as [o|] eqn:Ho; simpl in Hstep; [|done].
    injection Hstep as <- <-. repeat split; try done.
    intros x y Hy.
    apply lookup_insert_Some in Hy as [[<- <-]|[Hne Hy]]; [by simpl; congruence|].
    apply lookup_insert_Some in Hy as [[<- <-]|[Hne' Hy]]; simpl; by eapply Hnone.
  - unfold pool_move_assign in Hstep.
    destruct (objs !! this) as [x|] eqn:Hx; simpl in Hstep; [|done].
    destruct (objs !! other) as [o|] eqn:Ho; simpl in Hstep; [|done].
    destruct (decide (this = other)) as [->|Hne]; injection Hstep as <- <-;
      [by repeat split|].
    repeat split; try done.
    intros z y Hy.
    apply lookup_insert_Some in Hy as [[<- <-]|[Hne1 Hy]]; [by simpl; congruence|].
    apply lookup_insert_Some in Hy as [[<- <-]|[Hne2 Hy]]; simpl; by eapply Hnone.
  - destruct (objs !! this) as [o|] eqn:Ho; simpl in Hstep; [|done].
    injection Hstep as <- <-.
    assert (∀ x y, delete this objs !! x = Some y → m_pool y ≠ h) as Hnone'.
    { intros x y Hy. apply lookup_delete_Some in Hy as [_ Hy]. by eapply Hnone. }
    destruct (decide (m_pool o = 0)) as [Hz|Hnz'].
    + rewrite destroy_null by done. by repeat split.
    + destruct (destroy_model o w Hnz') as [Hnext Hcalls].
      split; [done|]. rewrite Hnext, Hcalls, destroy_model_table by done.
      specialize (Hnone _ _ Ho).
      split; [done|]. split; [by rewrite lookup_delete_ne|]. split; [|done].
      intros Hin. apply elem_of_app in Hin as [Hin|Hin]; [done|].
      apply list_elem_of_singleton in Hin. congruence.
Qed.

Lemma owner_run_orphaned (h : ABT_pool) (ops : list owner_op)
    (objs objs' : gmap Z pool) (w w' : W) :
  owner_run ops (objs, w) = Some (objs', w') →
  orphaned h objs (runtime w) → orphaned h objs' (runtime w').
Proof.
  revert objs w. induction ops as [|op ops IH]; intros objs w Hrun Horph;
    cbn [owner_run] in Hrun.
  - by injection Hrun as <- <-.
  - destruct (owner_step op (objs, w)) as [[objs1 w1]|] eqn:Hstep;
      cbn [mbind option_bind] in Hrun; [|done].
    eapply IH; [done|]. by eapply owner_step_orphaned.
Qed.

(** X9: a move assignment onto an owner that holds a non-null handle
    drops that handle without a teardown.  On the reference runtime,
    whatever was done before and whatever is done afterwards, the pool
    the target held is never passed to [ABT_pool_free], still exists, and
    no live owner holds its handle. *)
Theorem move_assign_orphans_target (w0 w w' : W) (ops0 ops : list owner_op)
    (objs objs' : gmap Z pool) (this other : address) (x o : pool) :
  0 < next_handle (runtime w0) → free_calls (runtime w0) = [] →
  owner_run ops0 (∅, w0) = Some (objs, w) →
  objs !! this = Some x → objs !! other = Some o → this ≠ other →
  m_pool x ≠ ABT_POOL_NULL →
  owner_run (op_move_assign this other :: ops) (objs, w) = Some (objs', w') →
  (m_pool x ∉ free_calls (runtime w'))
  ∧ is_Some (pool_table (runtime w') !! m_pool x)
  ∧ (∀ a y, objs' !! a = Some y → m_pool y ≠ m_pool x).
Proof.
  intros Hn Hc Hrun0 Hx Ho Hne Hnz Hrun. change (m_pool x ≠ 0) in Hnz.
  destruct (owner_run_alive ops0 ∅ objs w0 w Hrun0) as [Hinv Halive].
  { by apply owners_inv_init. }
  { intros a y Hy. by rewrite lookup_empty in Hy. }
  cbn [owner_run] in Hrun.
  destruct (owner_step (op_move_assign this other) (objs, w)) as [[objs1 w1]|] eqn:Hstep;
    cbn [mbind option_bind] in Hrun; [|done].
  assert (orphaned (m_pool x) objs1 (runtime w1)) as Horph.
  { simpl in Hstep. unfold pool_move_assign in Hstep. rewrite Hx, Ho in Hstep.
    simpl in Hstep. rewrite decide_False in Hstep by done.
    injection Hstep as <- <-.
    destruct (inv_held _ _ Hinv _ _ Hx Hnz) as [Hlt Hfree].
    split; [done|]. split; [done|]. split; [by eapply Halive|]. split; [done|].
    intros a y Hy.
    apply lookup_insert_Some in Hy as [[<- <-]|[Hne1 Hy]]; [by simpl; congruence|].
    apply lookup_insert_Some in Hy as [[<- <-]|[Hne2 Hy]]; simpl.
    - intros Heq. apply Hne. symmetry.
      eapply (inv_unique _ _ Hinv); [exact Ho|exact Hx|done|].
      rewrite Heq. done.
    - intros Heq. apply Hne2. symmetry.
      by eapply (inv_unique _ _ Hinv); [exact Hy|exact Hx|done|rewrite Heq]. }
  destruct (owner_run_orphaned _ _ _ _ _ _ Hrun Horph) as (_ & _ & Hlive & Hfree & Hnone).
  done.
Qed.
End model_owner_more_facts.

(** ** Comparisons, copies and moves of handles *)

Section comparison_facts.
Context {R P U F PA UA : Type}.
Context `{!AbtConstants}.
Local Abbreviation W := (world R P U F PA UA).

(** X10: a pool is null exactly when it equals a default-constructed
    pool, and converts to [true] exactly when it differs from one; two
    pools are equal exactly when their native handles are.  After a move
    construction the new pool equals what the source was and the source
    is null; after a copy construction or a copy assignment the target
    equals the source and the source is unchanged, so both name the same
    native pool. *)
Theorem handle_comparisons (s : gmap Z pool) (this other : address) (o : pool) :
  s !! other = Some o → this ≠ other →
  (∀ p, is_null p = pool_eq p pool_default
        ∧ operator_bool p = pool_ne p pool_default)
  ∧ (∀ p q, pool_eq p q = true ↔ native_handle p = native_handle q)
  ∧ (∃ s' t o', pool_move_ctor this other s = Some s'
       ∧ s' !! this = Some t ∧ s' !! other = Some o'
       ∧ pool_eq t o = true ∧ is_null o' = true ∧ operator_bool o' = false
       ∧ (pool_eq t o' = is_null o))
  ∧ (∃ s' t, pool_copy_ctor this other s = Some s'
       ∧ s' !! this = Some t ∧ s' !! other = Some o
       ∧ pool_eq t o = true ∧ is_null t = is_null o)
  ∧ (is_Some (s !! this) →
     ∃ s' t, pool_copy_assign this other s = Some s'
       ∧ s' !! this = Some t ∧ s' !! other = Some o
       ∧ pool_eq t o = true).
Proof.
  intros Ho Hne. split; [|split; [|split; [|split]]].
  - intros p. by split.
  - intros p q. unfold pool_eq, native_handle. apply bool_decide_eq_true.
  - unfold pool_move_ctor. rewrite Ho. simpl. eexists _, _, _.
    split; [done|]. split; [rewrite lookup_insert_ne by done; apply lookup_insert_eq|].
    split; [apply lookup_insert_eq|].
    unfold pool_eq, is_null, operator_bool, is_null. simpl.
    rewrite !bool_decide_eq_true_2 by done. by repeat split.
  - unfold pool_copy_ctor. rewrite Ho. simpl. eexists _, _.
    split; [done|]. split; [apply lookup_insert_eq|].
    split; [by rewrite lookup_insert_ne|].
    unfold pool_eq, is_null. simpl. by rewrite bool_decide_eq_true_2.
  - intros [x Hx]. unfold pool_copy_assign. rewrite Hx, Ho. simpl. eexists _, _.
    split; [done|]. split; [apply lookup_insert_eq|].
    split; [by rewrite lookup_insert_ne|].
    unfold pool_eq. simpl. by rewrite bool_decide_eq_true_2.
Qed.
End comparison_facts.

(** ** The checked calls of [pool] *)

Section checked_call_facts.
Context {R P U F PA UA : Type}.
Context `{!AbtConstants}.
Local Abbreviation W := (world R P U F PA UA).
Context `{!Native W, !NativeQueries W}.

Lemma checks_value {A} (native : W → (status * A) * W) (text : string) (line : Z) :
  checks ('(r, v) ← call native; TL_POOL_ASSERT text line r;; mret v)
         native text line.
Proof.
  intros w. unfold TL_POOL_ASSERT. monad_unfold.
  destruct (native w) as [[r v] w']. simpl. by case_decide.
Qed.

Lemma checks_status (native : W → status * W) (text : string) (line : Z) :
  checks (r ← call native; TL_POOL_ASSERT text line r)
         (status_only native) text line.
Proof.
  intros w. unfold TL_POOL_ASSERT, status_only. monad_unfold.
  destruct (native w) as [r w']. simpl. by case_decide.
Qed.

(** X11: [pop], [push], [remove], [run_unit], [get_access],
    [total_size], [size] and [id] each make their runtime call once,
    return what it produced exactly when its status is [ABT_SUCCESS], and
    otherwise throw the exception of [TL_POOL_ASSERT] for that call,
    leaving the world as the call left it.  [add_sched], which throws by
    hand, behaves the same, and the text of its exception is the text
    [TL_POOL_ASSERT] would have produced for its call. *)
Theorem pool_calls_checked (self : pool) :
  checks (pop self) (ABT_pool_pop (m_pool self)) "ABT_pool_pop(m_pool, &u)" 440
  ∧ (∀ u, checks (push self u) (status_only (ABT_pool_push (m_pool self) u))
            "ABT_pool_push(m_pool, reinterpret_cast<ABT_unit>(unit))" 455)
  ∧ (∀ u, checks (remove self u) (status_only (ABT_pool_remove (m_pool self) u))
            "ABT_pool_remove(m_pool, reinterpret_cast<ABT_unit>(unit))" 466)
  ∧ (∀ u, checks (pool_members.run_unit self u) (status_only (ABT_xstream_run_unit u (m_pool self)))
            "ABT_xstream_run_unit(reinterpret_cast<ABT_unit>(unit), m_pool)" 479)
  ∧ checks (pool_members.get_access self) (ABT_pool_get_access (m_pool self))
      "ABT_pool_get_access(m_pool, &a)" 391
  ∧ checks (pool_members.total_size self) (ABT_pool_get_total_size (m_pool self))
      "ABT_pool_get_total_size(m_pool, &s)" 404
  ∧ checks (pool_members.size self) (ABT_pool_get_size (m_pool self))
      "ABT_pool_get_size(m_pool, &s)" 416
  ∧ checks (pool_members.id self) (ABT_pool_get_id (m_pool self)) "ABT_pool_get_id(m_pool, &i)" 427
  ∧ (∀ sched w,
       let native := ABT_pool_add_sched (m_pool self) (m_sched sched) in
       if decide ((native w).1 = ABT_SUCCESS)
       then pool_members.add_sched self sched w = (Returned tt, (native w).2)
       else ∃ args,
         pool_members.add_sched self sched w = (Threw (pool_exception args), (native w).2)
         ∧ TL_POOL_EXCEPTION "ABT_pool_add_sched(m_pool, sched.native_handle())"
             581 (native w).1 = pool_exception
                                  ([Str "ABT_pool_add_sched(m_pool, sched.native_handle())";
                                    Str " returned "] ++ drop 1 args)
         ∧ joined_text args =
             joined_text
               ([Str "ABT_pool_add_sched(m_pool, sched.native_handle())";
                 Str " returned "] ++ drop 1 args)).
Proof.
  split; [apply checks_value|].
  split; [intros u; apply checks_status|].
  split; [intros u; apply checks_status|].
  split; [intros u; apply checks_status|].
  split; [apply checks_value|].
  split; [apply checks_value|].
  split; [apply checks_value|].
  split; [apply checks_value|].
  intros sched w native. unfold pool_members.add_sched. monad_unfold. fold native.
  destruct (native w) as [r w']. simpl.
  destruct (decide (r = ABT_SUCCESS)) as [->|Hr].
  - by rewrite decide_False by (intros Hn; by apply Hn).
  - rewrite decide_True by done. eexists. split; [done|]. by split.
Qed.
End checked_call_facts.

(** ** Created pools on the reference runtime *)

Import abt_queries.

Section model_creation_facts.
Context {P U F PA UA : Type}.
Context `{!UnitModel U, !PoolModel P U, !Allocator PA, !Allocator UA}.
Local Abbreviation W := (world abt P U F PA UA).

(** X12: on the reference runtime with room for a pool, [create<P, U>()]
    returns, when the pool allocator provides storage, a pool whose
    access pattern is [P::access_type] and whose opaque state is a
    default-constructed [P]: [get_access] reports the former and the
    adapter's [p_get_size] the size of the latter, with one allocate and
    one construct through the pool allocator in the log.  [create(a, k)]
    returns a pool whose [get_access] reports [a], whatever [k] is. *)
Theorem created_pool_reports (w : W) (n : nat) :
  pools_left (runtime w) = S n →
  let h := next_handle (runtime w) in
  (∀ impl a, allocate 1 (pool_allocator w) = Some (impl, a) →
     ∃ w1, create_custom w = (Returned (make_managed_pool h), w1)
           ∧ pool_members.get_access {| m_pool := h |} w1
               = (Returned (ABT_pool_access_of P_access_type), w1)
           ∧ p_get_size h w1 = (Returned (P_get_size P_default), w1)
           ∧ mem_log w1 =
               mem_log w ++ [Allocate pool_arena impl 1; Construct pool_arena impl])
  ∧ (∀ a k, ∃ w1, create a k w = (Returned (make_managed_pool h), w1)
                  ∧ pool_members.get_access {| m_pool := h |} w1
                      = (Returned (ABT_pool_access_of a), w1)
                  ∧ mem_log w1 = mem_log w).
Proof.
  intros Hleft h. split.
  - intros impl a Ha.
    unfold create_custom, TL_POOL_ASSERT. monad_unfold. simpl.
    unfold pool_create, lift, pool_new. simpl. rewrite Hleft. simpl.
    unfold p_init, pool_allocate, pool_construct. monad_unfold. simpl.
    rewrite Ha. simpl. unfold lift, pool_set_data. simpl.
    rewrite lookup_insert_eq. simpl.
    eexists. split; [reflexivity|]. split; [|split].
    + unfold pool_members.get_access, TL_POOL_ASSERT. monad_unfold. simpl.
      unfold lift, on_pool. simpl. by rewrite lookup_insert_eq.
    + unfold p_get_size, TL_POOL_ASSERT, deref_pool. monad_unfold. simpl.
      unfold lift, pool_get_data. simpl. rewrite lookup_insert_eq. simpl.
      by rewrite lookup_insert_eq.
    + simpl. by rewrite <- app_assoc.
  - intros a k. unfold create, TL_POOL_ASSERT. monad_unfold. simpl.
    unfold lift, pool_create_basic, pool_new. rewrite Hleft. simpl.
    eexists. split; [reflexivity|]. split; [|done].
    unfold pool_members.get_access, TL_POOL_ASSERT. monad_unfold. simpl.
    unfold lift, on_pool. simpl. by rewrite lookup_insert_eq.
Qed.
End model_creation_facts.

(** ** Destroying twice *)

Section destroy_facts.
Context {R P U F PA UA : Type}.
Context `{!AbtConstants}.
Local Abbreviation W := (world R P U F PA UA).
Context `{!Native W}.

(** X13: [destroy()] never throws: on a non-null pool it calls
    [ABT_pool_free] once and returns whatever status that call reports,
    the pool then holding the handle the runtime left; and when the
    runtime left the null handle, destroying the same object again makes
    no further call. *)
Theorem destroy_twice (self : pool) (w w' : W) (r : status) (h : ABT_pool) :
  m_pool self ≠ ABT_POOL_NULL →
  ABT_pool_free (m_pool self) w = ((r, h), w') →
  destroy self w = (Returned {| m_pool := h |}, w')
  ∧ (h = ABT_POOL_NULL →
     (self' ← destroy self; destroy self') w = (Returned {| m_pool := h |}, w')).
Proof.
  intros Hnz Hfree.
  assert (destroy self w = (Returned {| m_pool := h |}, w')) as Hfirst.
  { rewrite destroy_live by done. by rewrite Hfree. }
  split; [done|]. intros Hnull. monad_unfold. rewrite Hfirst.
  by apply destroy_null.
Qed.
End destroy_facts.

(** ** The further theorems at concrete inputs *)

Lemma adapter_simulates_pool_witness :
  run_adapter 1 [a_push 600; a_push 601; a_get_size; a_pop; a_remove 601; a_pop;
                 a_get_size] world_custom =
    (Returned [r_done; r_done; r_size 2; r_popped 600; r_status 0; r_popped 0;
               r_size 0],
     forwarded 256 (My_pool []) ∅ world_custom).
Proof.
  refine (adapter_simulates_pool 1 256
            [a_push 600; a_push 601; a_get_size; a_pop; a_remove 601; a_pop;
             a_get_size] (My_pool []) world_custom _ eq_refl).
  intros [rt pa ua po uo fo lg] Hrt. simpl in Hrt. subst rt. reflexivity.
Defined.

Lemma adapter_lookup_failure_witness :
  p_get_size 7 world0 =
    (Threw (TL_POOL_EXCEPTION "ABT_pool_get_data(p, &data)" 132 ERR_INV_POOL), world0)
  ∧ (∀ u, p_push 7 u world0 =
          (Threw (TL_POOL_EXCEPTION "ABT_pool_get_data(p, &data)" 139 ERR_INV_POOL),
           world0))
  ∧ p_pop 7 world0 =
      (Threw (TL_POOL_EXCEPTION "ABT_pool_get_data(p, &data)" 155 ERR_INV_POOL), world0)
  ∧ p_free 7 world0 = (Returned ERR_INV_POOL, world0).
Proof.
  refine (adapter_lookup_failure 7 world0 world0 ERR_INV_POOL 0 eq_refl _).
  discriminate.
Defined.

Lemma p_init_p_free_balanced_witness :
  p_init 1 ABT_POOL_CONFIG_NULL (create mpmc fifo world0).2
    = (Returned 0, (p_init 1 ABT_POOL_CONFIG_NULL (create mpmc fifo world0).2).2)
  ∧ ∃ w4, p_free 1 (p_init 1 ABT_POOL_CONFIG_NULL (create mpmc fifo world0).2).2
            = (Returned ABT_SUCCESS, w4)
          ∧ pool_objs w4 = ∅
          ∧ pool_allocator w4 = Bump 257 4
          ∧ mem_log w4 =
              [Allocate pool_arena 256 1; Construct pool_arena 256;
               Destroy pool_arena 256; Deallocate pool_arena 256 1]
          ∧ unit_objs w4 = ∅
          ∧ runtime w4 = runtime (p_init 1 ABT_POOL_CONFIG_NULL (create mpmc fifo world0).2).2.
Proof.
  exact (p_init_p_free_balanced 1 ABT_POOL_CONFIG_NULL (create mpmc fifo world0).2
           (p_init 1 ABT_POOL_CONFIG_NULL (create mpmc fifo world0).2).2
           (p_init 1 ABT_POOL_CONFIG_NULL (create mpmc fifo world0).2).2
           256 (Bump 257 3) 0
           eq_refl eq_refl eq_refl eq_refl eq_refl eq_refl eq_refl).
Defined.

Lemma unit_queries_frame_witness :
  ∃ w', u_free 512 world_unit = (Returned nullptr, w')
        ∧ (u_get_thread 512 world_unit).1 = Returned 42
        ∧ (u_get_thread 512 w').1 = Undefined.
Proof.
  exists (u_free 512 world_unit).2. split; [reflexivity|]. split; [reflexivity|].
  exact (proj1 (proj2 (proj1 (proj1 (proj2 (unit_queries_frame 512 world_unit))
                                nullptr (u_free 512 world_unit).2 eq_refl)))).
Defined.

Lemma unit_type_roundtrip_witness :
  (∀ t, ∃ w', u_create_from_thread t world0 = (Returned 512, w')
              ∧ u_get_type 512 w' = (Returned ABT_UNIT_TYPE_THREAD, w'))
  ∧ (∀ t, ∃ w', u_create_from_task t world0 = (Returned 512, w')
                ∧ u_get_type 512 w' = (Returned ABT_UNIT_TYPE_TASK, w')).
Proof.
  exact (unit_type_roundtrip world0 512 (Bump 513 3)
           (λ th, eq_refl) (λ tk, eq_refl) eq_refl).
Defined.

Lemma forward_work_unit_lifetime_witness :
  (∃ w2, run_forward_work_unit 4096 (new_function 77%nat world0).2 = (Returned tt, w2)
         ∧ fun_objs w2 = ∅
         ∧ mem_log w2 =
             [Allocate default_heap 4096 1; Construct default_heap 4096;
              Destroy default_heap 4096; Deallocate default_heap 4096 1])
  ∧ run_forward_work_unit 4096 (new_function 0%nat world0).2
      = (Threw bad_alloc, (new_function 0%nat world0).2)
  ∧ fun_objs (new_function 0%nat world0).2 !! 4096 = Some 0%nat.
Proof.
  split; [|split; [|reflexivity]].
  - eexists. split.
    + exact (proj1 (forward_work_unit_lifetime 77%nat world0
                      (new_function 77%nat world0).2 4096 eq_refl)
               (new_function 77%nat world0).2 77%nat eq_refl eq_refl).
    + split; reflexivity.
  - exact (proj1 (proj2 (forward_work_unit_lifetime 0%nat world0
                           (new_function 0%nat world0).2 4096 eq_refl))
             bad_alloc (new_function 0%nat world0).2 eq_refl).
Defined.

Lemma revive_paths_witness :
  ∃ w2, revive_thread {| m_pool := 1 |} {| m_thread := 7 |} 77%nat world_joined
          = (Threw (TL_POOL_EXCEPTION
                      "ABT_thread_revive(m_pool, forward_work_unit, reinterpret_cast<void*>(fp), &(t.m_thread))"
                      630 ERR_INV_THREAD), w2)
        ∧ fun_objs w2 !! 4096 = Some 77%nat
        ∧ mem_log w2 = [Allocate default_heap 4096 1; Construct default_heap 4096].
Proof.
  eexists. split.
  - refine (proj2 (proj1 (proj2 (revive_paths {| m_pool := 1 |} 77%nat world_joined)
                             4096 _ eq_refl)
                     {| m_thread := 7 |} ERR_INV_THREAD 7 _ eq_refl) _).
    discriminate.
  - split; reflexivity.
Defined.

Lemma owners_never_dangle_witness :
  ∃ objs' w',
    owner_run [op_create 10 priv fifo; op_move_ctor 11 10; op_create 12 mpmc fifo_wait;
               op_destruct 10; op_destruct 12] (∅, world0) = Some (objs', w')
    ∧ objs' !! 11 = Some {| m_pool := 1 |}
    ∧ is_Some (pool_table (runtime w') !! 1)
    ∧ (1 ∉ free_calls (runtime w')).
Proof.
  eexists _, _. split; [vm_compute; reflexivity|]. split; [reflexivity|].
  refine (proj1 (owners_never_dangle (P := my_pool) (U := my_unit) (F := nat)
                   (PA := bump) (UA := bump) world0 _
                   [op_create 10 priv fifo; op_move_ctor 11 10;
                    op_create 12 mpmc fifo_wait; op_destruct 10; op_destruct 12]
                   _ _ _ _) 11 {| m_pool := 1 |} _ _).
  - vm_compute. reflexivity.
  - reflexivity.
  - vm_compute. reflexivity.
  - reflexivity.
  - discriminate.
Defined.

Lemma move_assign_orphans_target_witness :
  ∃ objs' w',
    owner_run [op_move_assign 12 10; op_destruct 10; op_destruct 12]
      (<[12 := {| m_pool := 2 |}]> {[ 10 := {| m_pool := 1 |} ]},
       (create mpmc fifo_wait (create priv fifo world0).2).2) = Some (objs', w')
    ∧ free_calls (runtime w') = [1]
    ∧ (2 ∉ free_calls (runtime w'))
    ∧ is_Some (pool_table (runtime w') !! 2)
    ∧ (∀ a y, objs' !! a = Some y → m_pool y ≠ 2).
Proof.
  eexists _, _. split; [vm_compute; reflexivity|]. split; [reflexivity|].
  refine (move_assign_orphans_target (P := my_pool) (U := my_unit) (F := nat)
            (PA := bump) (UA := bump) world0
            (create mpmc fifo_wait (create priv fifo world0).2).2 _
            [op_create 10 priv fifo; op_create 12 mpmc fifo_wait]
            [op_destruct 10; op_destruct 12]
            (<[12 := {| m_pool := 2 |}]> {[ 10 := {| m_pool := 1 |} ]}) _
            12 10 {| m_pool := 2 |} {| m_pool := 1 |} _ _ _ _ _ _ _ _).
  - vm_compute. reflexivity.
  - reflexivity.
  - vm_compute. reflexivity.
  - reflexivity.
  - reflexivity.
  - discriminate.
  - discriminate.
  - vm_compute. reflexivity.
Defined.

Lemma handle_comparisons_witness :
  ∃ s' t o', pool_move_ctor 11 10 {[ 10 := {| m_pool := 1 |} ]} = Some s'
    ∧ s' !! 11 = Some t ∧ s' !! 10 = Some o'
    ∧ pool_eq t {| m_pool := 1 |} = true ∧ is_null o' = true
    ∧ operator_bool o' = false
    ∧ pool_eq t o' = is_null {| m_pool := 1 |}.
Proof.
  refine (proj1 (proj2 (proj2
            (handle_comparisons {[ 10 := {| m_pool := 1 |} ]} 11 10
               {| m_pool := 1 |} eq_refl _)))).
  discriminate.
Defined.

Lemma created_pool_reports_witness :
  ∃ w1, create_custom world0 = (Returned (make_managed_pool 1), w1)
        ∧ pool_members.get_access {| m_pool := 1 |} w1
            = (Returned (ABT_pool_access_of (P_access_type (P := my_pool))), w1)
        ∧ p_get_size 1 w1 = (Returned (P_get_size (P_default (P := my_pool))), w1)
        ∧ mem_log w1 =
            mem_log world0 ++ [Allocate pool_arena 256 1; Construct pool_arena 256].
Proof.
  exact (proj1 (created_pool_reports world0 3 eq_refl) 256 (Bump 257 3) eq_refl).
Defined.

Lemma destroy_twice_witness :
  destroy {| m_pool := 1 |} world_custom
    = (Returned {| m_pool := 0 |}, (destroy {| m_pool := 1 |} world_custom).2)
  ∧ (0 = ABT_POOL_NULL →
     (self' ← destroy {| m_pool := 1 |}; destroy self') world_custom
       = (Returned {| m_pool := 0 |}, (destroy {| m_pool := 1 |} world_custom).2)).
Proof.
  refine (destroy_twice {| m_pool := 1 |} world_custom
            (destroy {| m_pool := 1 |} world_custom).2 0 0 _ eq_refl).
  discriminate.
Defined.
